(** * cirq.linalg.tolerance: approximate equality of scalars and matrices

    A shallow embedding of [cirq/linalg/tolerance.py] and the properties of
    its comparison predicates.

    Scalars are Python [float]s, that is IEEE 754 binary64 numbers.  They are
    represented by the Standard Library's [spec_float] at precision 53 and
    maximal exponent 1024, whose operations round to nearest, ties to even,
    exactly as the hardware does; the NaNs, the two infinities and the two
    zeros are all there.  Integer arguments of the Python code ([0], [2],
    [100]) are taken at their float value, which is exact.

    Arrays are numpy [ndarray]s of float64: a shape and the elements in
    row-major order. *)

From Stdlib Require Import ZArith List Bool Lia.
From Stdlib Require Import Floats.SpecFloat.
Import ListNotations.

Set Implicit Arguments.

(** ** Binary64 arithmetic *)

Module F64.

Definition prec : Z := 53.
Definition emax : Z := 1024.

Definition float : Type := spec_float.

Definition add : float -> float -> float := SFadd prec emax.
Definition sub : float -> float -> float := SFsub prec emax.
Definition mul : float -> float -> float := SFmul prec emax.
Definition div : float -> float -> float := SFdiv prec emax.
Definition abs : float -> float := SFabs.
Definition leb : float -> float -> bool := SFleb.
Definition ltb : float -> float -> bool := SFltb.
Definition eqb : float -> float -> bool := SFeqb.

(** The float of an integer (exact below 2^53). *)
Definition of_Z (z : Z) : float := binary_normalize prec emax z 0 false.

Definition zero : float := S754_zero false.
Definition nan : float := S754_nan.
Definition inf : float := S754_infinity false.

Definition isnan (x : float) : bool :=
  match x with S754_nan => true | _ => false end.

Definition isfinite (x : float) : bool :=
  match x with
  | S754_zero _ | S754_finite _ _ _ => true
  | S754_infinity _ | S754_nan => false
  end.

Definition signbit (x : float) : bool :=
  match x with
  | S754_zero s | S754_infinity s | S754_finite s _ _ => s
  | S754_nan => false
  end.

Definition copysign (x y : float) : float :=
  if signbit y then SFopp (abs x) else abs x.

(** C's [fmod]: the remainder of the truncated division, computed exactly,
    with the sign of the dividend. *)
Definition fmod (x y : float) : float :=
  match x, y with
  | S754_nan, _ | _, S754_nan => S754_nan
  | S754_infinity _, _ => S754_nan
  | _, S754_zero _ => S754_nan
  | _, S754_infinity _ => x
  | S754_zero _, S754_finite _ _ _ => x
  | S754_finite sx mx ex, S754_finite _ my ey =>
      let ez := Z.min ex ey in
      let X := Zpos (fst (shl_align mx ex ez)) in
      let Y := Zpos (fst (shl_align my ey ez)) in
      binary_normalize prec emax (cond_Zopp sx (Z.rem X Y)) ez sx
  end.

(** C truth value of a double: [x != 0.0]. *)
Definition truthy (x : float) : bool := negb (eqb x zero).

(** The sign adjustment shared by CPython's [float_rem] and numpy's
    [npy_divmod]: the remainder takes the sign of the divisor. *)
Definition adjust_rem (m w : float) : float :=
  if truthy m then
    if xorb (ltb w zero) (ltb m zero) then add m w else m
  else copysign zero w.

(** Decimal literals of the source, as the nearest binary64 number. *)
Definition lit_1e_5 : float := S754_finite false 5902958103587057 (-69).
Definition lit_1e_8 : float := S754_finite false 6044629098073146 (-79).
Definition lit_1e_9 : float := S754_finite false 4835703278458517 (-82).
Definition lit_1e_10 : float := S754_finite false 7737125245533627 (-86).
Definition one : float := of_Z 1.
Definition two : float := of_Z 2.
(** [math.pi] *)
Definition pi : float := S754_finite false 7074237752028440 (-51).

End F64.

Abbreviation float := F64.float.

(** ** Python exceptions *)

Inductive exn : Type :=
| ZeroDivisionError
| ValueError.

Inductive result (A : Type) : Type :=
| Ok (a : A)
| Raise (e : exn).

Arguments Ok {A} a.
Arguments Raise {A} e.

Definition bind {A B : Type} (r : result A) (k : A -> result B) : result B :=
  match r with
  | Ok a => k a
  | Raise e => Raise e
  end.

Notation "x <- r ;; k" := (bind r (fun x => k))
  (at level 61, r at next level, right associativity).

(** ** Python float operators that can raise *)

Module Py.

(** [v % w] on floats: CPython's [float_rem]. *)
Definition float_rem (v w : float) : result float :=
  if F64.eqb w F64.zero then Raise ZeroDivisionError
  else Ok (F64.adjust_rem (F64.fmod v w) w).

(** [v / w] on floats: CPython's [float_div]. *)
Definition float_div (v w : float) : result float :=
  if F64.eqb w F64.zero then Raise ZeroDivisionError
  else Ok (F64.div v w).

End Py.

(** ** The part of numpy the module uses

    numpy is a dependency of the repository, not part of it.  The model
    follows the reference implementation of the release the module was
    written against ([numpy/core/numeric.py], [isclose] and [allclose];
    [npy_divmod] for the remainder) and its documentation: arrays are
    compared element by element after broadcasting, finite elements within
    the tolerance, the others by equality, NaNs as equal on request. *)

Module Np.

Record ndarray (A : Type) : Type :=
  mk_ndarray { shape : list nat; data : list A }.

(** Number of elements of a shape. *)
Definition size (s : list nat) : nat := fold_right Nat.mul 1 s.

(** [np.array(a)] of an array: a copy of it. *)
Definition array (a : ndarray float) : ndarray float := a.

(** [np.zeros(shape)] *)
Definition zeros (s : list nat) : ndarray float :=
  mk_ndarray s (repeat F64.zero (size s)).

Definition map_array {A B : Type} (f : A -> B) (a : ndarray A) : ndarray B :=
  mk_ndarray (shape a) (map f (data a)).

(** The remainder ufunc on float64 ([npy_divmod]): no exception, a zero
    divisor gives the NaN of [fmod]. *)
Definition remainder (a b : float) : float :=
  let m := F64.fmod a b in
  if F64.eqb b F64.zero then m else F64.adjust_rem m b.

(** Array-with-scalar arithmetic: the scalar is broadcast to every element. *)
Definition add_scalar (a : ndarray float) (s : float) : ndarray float :=
  map_array (fun v => F64.add v s) a.
Definition mod_scalar (a : ndarray float) (s : float) : ndarray float :=
  map_array (fun v => remainder v s) a.
Definition sub_scalar (a : ndarray float) (s : float) : ndarray float :=
  map_array (fun v => F64.sub v s) a.

(** *** Broadcasting *)

(** Shapes are aligned on their last dimension; [broadcast_dims] works on
    the reversed shapes. *)
Fixpoint broadcast_dims (r1 r2 : list nat) : option (list nat) :=
  match r1, r2 with
  | [], r => Some r
  | r, [] => Some r
  | d1 :: r1', d2 :: r2' =>
      match broadcast_dims r1' r2' with
      | None => None
      | Some r =>
          if Nat.eqb d1 d2 then Some (d1 :: r)
          else if Nat.eqb d1 1 then Some (d2 :: r)
          else if Nat.eqb d2 1 then Some (d1 :: r)
          else None
      end
  end.

Definition broadcast_shapes (s1 s2 : list nat) : option (list nat) :=
  option_map (@rev nat) (broadcast_dims (rev s1) (rev s2)).

Definition pad_shape (s : list nat) (n : nat) : list nat :=
  repeat 1 (n - length s) ++ s.

Section Expand.
Context {A : Type}.

(** [n] consecutive blocks of [k] elements. *)
Fixpoint chunks (k n : nat) (d : list A) : list (list A) :=
  match n with
  | O => []
  | S n' => firstn k d :: chunks k n' (skipn k d)
  end.

(** Row-major data of shape [src] repeated along the dimensions of
    length one up to shape [tgt] (same rank). *)
Fixpoint expand (src tgt : list nat) (d : list A) : list A :=
  match src, tgt with
  | s :: src', t :: tgt' =>
      if Nat.eqb s t
      then flat_map (expand src' tgt') (chunks (size src') s d)
      else concat (repeat (expand src' tgt' d) t)
  | _, _ => d
  end.

Definition broadcast_to (a : ndarray A) (tgt : list nat) : list A :=
  expand (pad_shape (shape a) (length tgt)) tgt (data a).

(** Boolean-mask indexing [l[mask]]. *)
Fixpoint compress (mask : list bool) (l : list A) : list A :=
  match mask, l with
  | m :: mask', x :: l' =>
      if m then x :: compress mask' l' else compress mask' l'
  | _, _ => []
  end.

(** Boolean-mask assignment [cond[mask] = vals]. *)
Fixpoint put_mask (mask : list bool) (vals cond : list A) : list A :=
  match mask, cond with
  | m :: mask', c :: cond' =>
      if m then
        match vals with
        | v :: vals' => v :: put_mask mask' vals' cond'
        | [] => c :: put_mask mask' [] cond'
        end
      else c :: put_mask mask' vals cond'
  | _, _ => cond
  end.
End Expand.

Definition map2 {A B C : Type} (f : A -> B -> C) (l1 : list A) (l2 : list B)
  : list C :=
  map (fun p => f (fst p) (snd p)) (combine l1 l2).

Definition all (l : list bool) : bool := forallb (fun b => b) l.

(** *** isclose and allclose *)

Definition within_tol (x y atol rtol : float) : bool :=
  F64.leb (F64.abs (F64.sub x y)) (F64.add atol (F64.mul rtol (F64.abs y))).

Definition isclose (a b : ndarray float) (rtol atol : float) (equal_nan : bool)
  : result (ndarray bool) :=
  match broadcast_shapes (shape a) (shape b) with
  | None => Raise ValueError
  | Some s =>
      let xfin := map_array F64.isfinite a in
      let yfin := map_array F64.isfinite b in
      let x := broadcast_to a s in
      let y := broadcast_to b s in
      if all (data xfin) && all (data yfin) then
        Ok (mk_ndarray s (map2 (fun u v => within_tol u v atol rtol) x y))
      else
        let finite := map2 andb (broadcast_to xfin s) (broadcast_to yfin s) in
        let cond := map (fun _ => false) finite in
        let cond :=
          put_mask finite
            (map2 (fun u v => within_tol u v atol rtol)
               (compress finite x) (compress finite y)) cond in
        let infinite := map negb finite in
        let cond :=
          put_mask infinite
            (map2 F64.eqb (compress infinite x) (compress infinite y)) cond in
        let cond :=
          if equal_nan then
            let both_nan := map2 andb (map F64.isnan x) (map F64.isnan y) in
            put_mask both_nan (compress both_nan both_nan) cond
          else cond in
        Ok (mk_ndarray s cond)
  end.

Definition allclose (a b : ndarray float) (rtol atol : float) (equal_nan : bool)
  : result bool :=
  res <- isclose a b rtol atol equal_nan ;;
  Ok (all (data res)).

End Np.

Abbreviation ndarray := (Np.ndarray float).

(** ** cirq/linalg/tolerance.py *)

Definition DEFAULT_RTOL : float := F64.lit_1e_5.
Definition DEFAULT_ATOL : float := F64.lit_1e_8.
Definition DEFAULT_EQUAL_NAN : bool := false.

Definition all_close (a b : ndarray) (rtol atol : float) (equal_nan : bool)
  : result bool :=
  Np.allclose a b rtol atol equal_nan.

Definition all_near_zero (a : ndarray) (rtol atol : float) (equal_nan : bool)
  : result bool :=
  all_close a (Np.zeros (Np.shape a)) rtol atol equal_nan.

Definition all_near_zero_mod (a : ndarray) (period : float)
    (rtol atol : float) (equal_nan : bool) : result bool :=
  h1 <- Py.float_div period F64.two ;;
  h2 <- Py.float_div period F64.two ;;
  all_close
    (Np.sub_scalar (Np.mod_scalar (Np.add_scalar (Np.array a) h1) period) h2)
    (Np.zeros (Np.shape a)) rtol atol equal_nan.

Definition close (a b : float) (rtol atol : float) : bool :=
  F64.leb (F64.abs (F64.sub a b)) (F64.add atol (F64.mul rtol (F64.abs b))).

Definition near_zero (a : float) (atol : float) : bool :=
  F64.leb (F64.abs a) atol.

Definition near_zero_mod (a period : float) (atol : float) : result bool :=
  half_period <- Py.float_div period F64.two ;;
  r <- Py.float_rem (F64.add a half_period) period ;;
  Ok (near_zero (F64.sub r half_period) atol).

Module Tolerance.

Record t : Type := make { rtol : float; atol : float; equal_nan : bool }.

(** [Tolerance.__init__] with its default arguments. *)
Definition init (rtol atol : option float) (equal_nan : option bool) : t :=
  make (match rtol with Some r => r | None => F64.lit_1e_5 end)
       (match atol with Some r => r | None => F64.lit_1e_8 end)
       (match equal_nan with Some b => b | None => false end).

Definition all_close (self : t) (a b : ndarray) : result bool :=
  all_close a b (rtol self) (atol self) DEFAULT_EQUAL_NAN.

Definition all_near_zero (self : t) (a : ndarray) : result bool :=
  all_near_zero a (rtol self) (atol self) (equal_nan self).

Definition all_near_zero_mod (self : t) (a : ndarray) (period : float)
  : result bool :=
  all_near_zero_mod a period (rtol self) (atol self) (equal_nan self).

Definition close (self : t) (a b : float) : bool :=
  close a b (rtol self) (atol self).

Definition near_zero (self : t) (a : float) : bool :=
  near_zero a (atol self).

Definition near_zero_mod (self : t) (a period : float) : result bool :=
  near_zero_mod a period (atol self).

Definition ZERO : t := init (Some (F64.of_Z 0)) (Some (F64.of_Z 0)) None.
Definition DEFAULT : t := init None None None.

End Tolerance.

(** A one-dimensional array, as numpy builds it from a Python list. *)
Definition vec (l : list float) : ndarray := Np.mk_ndarray [length l] l.

(** ** Reading the comparisons as propositions *)

Module Spec.

(** [x <= y] on floats: false as soon as one side is NaN. *)
Definition le (x y : float) : Prop :=
  SFcompare x y = Some Lt \/ SFcompare x y = Some Eq.

(** [x < y] on floats. *)
Definition lt (x y : float) : Prop := SFcompare x y = Some Lt.

(** The tolerance band of the documentation:
    [abs(x - y) <= atol + rtol * abs(y)]. *)
Definition within (x y rtol atol : float) : Prop :=
  le (F64.abs (F64.sub x y)) (F64.add atol (F64.mul rtol (F64.abs y))).

(** The elementwise reading of [all_close] that takes the band alone,
    NaNs being equal on request. *)
Definition band_or_nan (rtol atol : float) (equal_nan : bool)
    (p : float * float) : Prop :=
  within (fst p) (snd p) rtol atol
  \/ (equal_nan = true /\ fst p = F64.nan /\ snd p = F64.nan).

(** What numpy does at one position: the band for two finite elements,
    equality as soon as one of them is infinite, NaNs equal on request. *)
Definition position_close (rtol atol : float) (equal_nan : bool)
    (p : float * float) : Prop :=
  (F64.isfinite (fst p) = true /\ F64.isfinite (snd p) = true
     /\ within (fst p) (snd p) rtol atol)
  \/ ((F64.isfinite (fst p) = false \/ F64.isfinite (snd p) = false)
      /\ F64.eqb (fst p) (snd p) = true)
  \/ (equal_nan = true /\ fst p = F64.nan /\ snd p = F64.nan).

(** The pairs of corresponding elements of two arrays under broadcasting,
    when their shapes are compatible. *)
Definition corresponding (a b : ndarray) : option (list (float * float)) :=
  match Np.broadcast_shapes (Np.shape a) (Np.shape b) with
  | Some s => Some (combine (Np.broadcast_to a s) (Np.broadcast_to b s))
  | None => None
  end.

(** The folding of the modular tests, [((v + p/2) % p) - p/2], with the
    array remainder and with the scalar one. *)
Definition fold_np (v p : float) : float :=
  F64.sub (Np.remainder (F64.add v (F64.div p F64.two)) p)
          (F64.div p F64.two).

Definition fold_py (v p : float) : float :=
  F64.sub (F64.adjust_rem (F64.fmod (F64.add v (F64.div p F64.two)) p) p)
          (F64.div p F64.two).

(** [-p/2 <= x < p/2] *)
Definition in_half_open (x p : float) : Prop :=
  le (SFopp (F64.div p F64.two)) x /\ lt x (F64.div p F64.two).

(** Non-negative, as [0 <= x] tests it: a zero of either sign, a positive
    number or plus infinity. *)
Definition nonneg (x : float) : bool :=
  match x with
  | S754_zero _ | S754_finite false _ _ | S754_infinity false => true
  | _ => false
  end.

(** The decimal [10^-k] rounds to the float [x]: [x] is a canonical
    binary64 number [m * 2^e] and [10^-k] is within half a unit in the last
    place of it. *)
Definition nearest_pow10 (x : float) (k : Z) : Prop :=
  match x with
  | S754_finite false m e =>
      valid_binary F64.prec F64.emax x = true
      /\ (2 * Z.abs (Zpos m * 10 ^ k - 2 ^ (- e)) < 10 ^ k)%Z
  | _ => False
  end.

(** One position of [isclose] outside its all-finite shortcut. *)
Definition elem_close (rtol atol : float) (equal_nan : bool)
    (p : float * float) : bool :=
  let fin := F64.isfinite (fst p) && F64.isfinite (snd p) in
  let c := if fin then Np.within_tol (fst p) (snd p) atol rtol else false in
  let c := if negb fin then F64.eqb (fst p) (snd p) else c in
  if equal_nan then
    if F64.isnan (fst p) && F64.isnan (snd p) then true else c
  else c.

(** A zero-dimensional array, as numpy builds it from a Python scalar. *)
Definition scalar (x : float) : ndarray := Np.mk_ndarray [] [x].

(** The data of an array fills its shape. *)
Definition well_shaped (a : ndarray) : Prop :=
  length (Np.data a) = Np.size (Np.shape a).

(** One element of [all_near_zero]: finite and within [atol] of zero. *)
Definition elem_near_zero (atol : float) (v : float) : bool :=
  F64.isfinite v && near_zero v atol.

(** A float a binary64 variable can hold: a finite one has its mantissa
    and exponent in canonical form. *)
Definition valid (x : float) : Prop :=
  valid_binary F64.prec F64.emax x = true.

(** One of the two zeros. *)
Definition is_zero (x : float) : bool :=
  match x with S754_zero _ => true | _ => false end.

(** [-p/2 <= x <= p/2] *)
Definition in_closed (x p : float) : Prop :=
  le (SFopp (F64.div p F64.two)) x /\ le x (F64.div p F64.two).

End Spec.

(** ** Floats as integers

    The finite binary64 numbers are the multiples of [2^emin], the least
    positive one; the arithmetic of the folding is followed on these
    integers. *)

(** The exponent of the least positive float. *)
Definition emin : Z := (-1074)%Z.

(** The value of a finite float, in units of [2^emin]. *)
Definition scaled (x : float) : Z :=
  match x with
  | S754_finite s m e => cond_Zopp s (Zpos m * 2 ^ (e - emin))%Z
  | _ => 0%Z
  end.

(** The digits a right shift has dropped are not all zero. *)
Definition lostb (mrs : shr_record) : bool := shr_r mrs || shr_s mrs.

(** [r] is a rounding of the integer [W] (in units of [2^emin]): a float that
    no finite float separates from [W]. *)
Definition rounds (W : Z) (r : float) : Prop :=
  Spec.valid r
  /\ forall y, Spec.valid y -> F64.isfinite y = true ->
       ((W <= scaled y)%Z -> Spec.le r y) /\ ((scaled y <= W)%Z -> Spec.le y r).

(** ** Facts on binary64 arithmetic *)

Section Rounding.

Lemma shr_1_nonneg mrs : (0 <= shr_m mrs)%Z -> (0 <= shr_m (shr_1 mrs))%Z.
Proof.
  destruct mrs as [m r s]; simpl.
  destruct m as [|[p|p|]|[p|p|]]; simpl; lia.
Qed.

Lemma iter_shr_1_nonneg p : forall mrs,
  (0 <= shr_m mrs)%Z -> (0 <= shr_m (iter_pos shr_1 p mrs))%Z.
Proof.
  induction p as [p IH|p IH|]; intros mrs H; simpl.
  - apply IH, IH, shr_1_nonneg, H.
  - apply IH, IH, H.
  - apply shr_1_nonneg, H.
Qed.

Lemma shr_nonneg mrs e n :
  (0 <= shr_m mrs)%Z -> (0 <= shr_m (fst (shr mrs e n)))%Z.
Proof.
  intros H; destruct n; simpl; auto using iter_shr_1_nonneg.
Qed.

Lemma shr_fexp_nonneg m e l :
  (0 <= m)%Z -> (0 <= shr_m (fst (shr_fexp F64.prec F64.emax m e l)))%Z.
Proof.
  intros H; unfold shr_fexp; apply shr_nonneg.
  destruct l as [|[ | | ]]; simpl; exact H.
Qed.

Lemma round_nearest_even_nonneg m l :
  (0 <= m)%Z -> (0 <= round_nearest_even m l)%Z.
Proof.
  intros H; destruct l as [|[ | | ]]; simpl; try lia.
  destruct (Z.even m); lia.
Qed.

Lemma binary_round_aux_nonneg m e l :
  (0 <= m)%Z ->
  Spec.nonneg (binary_round_aux F64.prec F64.emax false m e l) = true.
Proof.
  intros H; unfold binary_round_aux.
  pose proof (shr_fexp_nonneg e l H) as H1.
  destruct (shr_fexp F64.prec F64.emax m e l) as [mrs' e']; simpl in H1.
  pose proof (round_nearest_even_nonneg (loc_of_shr_record mrs') H1) as H2.
  pose proof (shr_fexp_nonneg e' loc_Exact H2) as H3.
  destruct (shr_fexp F64.prec F64.emax _ e' loc_Exact) as [mrs'' e''].
  simpl in H3.
  destruct (shr_m mrs'') as [|q|q]; simpl; try reflexivity.
  - destruct (_ <=? _)%Z; reflexivity.
  - lia.
Qed.

Lemma binary_round_nonneg m e :
  Spec.nonneg (binary_round F64.prec F64.emax false m e) = true.
Proof.
  unfold binary_round.
  destruct (shl_align m e _) as [mz ez].
  apply binary_round_aux_nonneg; lia.
Qed.

End Rounding.

Section FloatFacts.

Lemma leb_le x y : F64.leb x y = true <-> Spec.le x y.
Proof.
  unfold F64.leb, SFleb, Spec.le.
  destruct (SFcompare x y) as [[ | | ]|]; split; intros H; auto;
    try discriminate; destruct H; discriminate.
Qed.

Lemma ltb_lt x y : F64.ltb x y = true <-> Spec.lt x y.
Proof.
  unfold F64.ltb, SFltb, Spec.lt.
  destruct (SFcompare x y) as [[ | | ]|]; split; intros H; auto;
    discriminate.
Qed.

Lemma leb_zero_nonneg x : F64.leb F64.zero x = Spec.nonneg x.
Proof. destruct x as [s|[|]| |[|] m e]; reflexivity. Qed.

Lemma leb_nan_l y : F64.leb F64.nan y = false.
Proof. reflexivity. Qed.

Lemma leb_nan_r x : F64.leb x F64.nan = false.
Proof. destruct x; reflexivity. Qed.

Lemma isnan_eq x : F64.isnan x = true <-> x = F64.nan.
Proof. destruct x; simpl; split; intros H; try discriminate; auto. Qed.

Lemma isfinite_not_nan x : F64.isfinite x = true -> F64.isnan x = false.
Proof. destruct x; simpl; intros H; try discriminate; auto. Qed.

Lemma add_nonneg x y :
  Spec.nonneg x = true -> Spec.nonneg y = true ->
  Spec.nonneg (F64.add x y) = true.
Proof.
  destruct x as [sx|[|]| |[|] mx ex]; destruct y as [sy|[|]| |[|] my ey];
    simpl; intros Hx Hy; try discriminate; try reflexivity.
  - destruct sx, sy; reflexivity.
  - unfold F64.add, SFadd, cond_Zopp.
    cbn [Z.add binary_normalize]. apply binary_round_nonneg.
Qed.

Lemma mul_nonneg x y :
  Spec.nonneg x = true -> Spec.nonneg y = true ->
  F64.isfinite x = true -> F64.isfinite y = true ->
  Spec.nonneg (F64.mul x y) = true.
Proof.
  destruct x as [sx|[|]| |[|] mx ex]; destruct y as [sy|[|]| |[|] my ey];
    simpl; intros Hx Hy Fx Fy; try discriminate; try reflexivity.
  unfold F64.mul, SFmul, xorb. apply binary_round_aux_nonneg; lia.
Qed.

Lemma abs_nonneg x : F64.isnan x = false -> Spec.nonneg (F64.abs x) = true.
Proof. destruct x; simpl; intros H; try discriminate; reflexivity. Qed.

Lemma abs_isfinite x : F64.isfinite (F64.abs x) = F64.isfinite x.
Proof. destruct x; reflexivity. Qed.

(** The bound [atol + rtol * abs(y)] of a finite [y] is a non-negative
    number or plus infinity as soon as the tolerances are non-negative and
    [rtol] is finite. *)
Lemma bound_nonneg rtol atol y :
  Spec.nonneg rtol = true -> F64.isfinite rtol = true ->
  Spec.nonneg atol = true -> F64.isfinite y = true ->
  Spec.nonneg (F64.add atol (F64.mul rtol (F64.abs y))) = true.
Proof.
  intros Hr Fr Ha Fy.
  apply add_nonneg; [exact Ha|].
  apply mul_nonneg; auto.
  - apply abs_nonneg, isfinite_not_nan, Fy.
  - rewrite abs_isfinite; exact Fy.
Qed.

Lemma sub_self x : F64.isfinite x = true -> F64.abs (F64.sub x x) = F64.zero.
Proof.
  destruct x as [[|]|s| |s m e]; simpl; intros H; try discriminate;
    try reflexivity.
  unfold F64.sub, SFsub. rewrite Z.sub_diag. reflexivity.
Qed.

Lemma eqb_finite_inv s1 m1 e1 s2 m2 e2 :
  F64.eqb (S754_finite s1 m1 e1) (S754_finite s2 m2 e2) = true ->
  s1 = s2 /\ m1 = m2 /\ e1 = e2.
Proof.
  unfold F64.eqb, SFeqb, SFcompare.
  destruct s1, s2; try discriminate;
    destruct (Z.compare_spec e1 e2) as [He|He|He]; try discriminate;
    change (Pos.compare_cont Eq m1 m2) with (Pos.compare m1 m2);
    destruct (Pos.compare_spec m1 m2) as [Hm|Hm|Hm]; try discriminate;
    intros _; auto.
Qed.

Lemma sub_eqb a b :
  F64.eqb a b = true -> F64.isfinite a = true ->
  F64.abs (F64.sub a b) = F64.zero.
Proof.
  intros E F.
  destruct a as [sa|sa| |sa ma ea]; destruct b as [sb|sb| |sb mb eb];
    try discriminate F; try discriminate E;
    try (destruct sa; discriminate E); try (destruct sb; discriminate E).
  - destruct sa, sb; reflexivity.
  - apply eqb_finite_inv in E. destruct E as (-> & -> & ->).
    apply (sub_self (S754_finite sb mb eb)). reflexivity.
Qed.

Lemma eqb_isfinite a b :
  F64.eqb a b = true -> F64.isfinite a = F64.isfinite b.
Proof.
  destruct a as [sa|[|]| |[|] ma ea]; destruct b as [sb|[|]| |[|] mb eb];
    simpl; intros E; try discriminate; reflexivity.
Qed.

Lemma eqb_refl_not_nan x : F64.isnan x = false -> F64.eqb x x = true.
Proof.
  destruct x as [s|[|]| |[|] m e]; simpl; intros H; try discriminate;
    try reflexivity; unfold F64.eqb, SFeqb, SFcompare;
    rewrite Z.compare_refl;
    change (Pos.compare_cont Eq m m) with (Pos.compare m m);
    rewrite Pos.compare_refl; reflexivity.
Qed.

Lemma abs_sub_zero a : F64.abs (F64.sub a F64.zero) = F64.abs a.
Proof. destruct a as [[|]|s| |s m e]; reflexivity. Qed.

Lemma mul_abs_zero r :
  F64.isfinite r = true ->
  exists s, F64.mul r (F64.abs F64.zero) = S754_zero s.
Proof.
  destruct r as [s|s| |s m e]; simpl; intros H; try discriminate;
    eexists; reflexivity.
Qed.

Lemma leb_add_zero x atol s :
  F64.leb x (F64.add atol (S754_zero s)) = F64.leb x atol.
Proof.
  destruct atol as [[|]|sa| |sa m e]; destruct s; try reflexivity;
    destruct x as [sx|sx| |sx mx ex]; reflexivity.
Qed.

(** Two identical finite arguments are within any admissible tolerance. *)
Lemma within_tol_eqb x y rtol atol :
  Spec.nonneg rtol = true -> F64.isfinite rtol = true ->
  Spec.nonneg atol = true ->
  F64.isfinite x = true -> F64.eqb x y = true ->
  Np.within_tol x y atol rtol = true.
Proof.
  intros Hr Fr Ha Fx E. unfold Np.within_tol.
  rewrite (sub_eqb _ _ E Fx), leb_zero_nonneg.
  apply bound_nonneg; auto.
  rewrite <- (eqb_isfinite _ _ E); exact Fx.
Qed.

Lemma float_div_two p : Py.float_div p F64.two = Ok (F64.div p F64.two).
Proof. reflexivity. Qed.

End FloatFacts.

(** ** Facts on the array model *)

Section ArrayFacts.

Context {A B C : Type}.

Lemma chunks_In k n : forall (d c : list A) x,
  In c (Np.chunks k n d) -> In x c -> In x d.
Proof.
  induction n as [|n IH]; simpl; intros d c x Hc Hx; [contradiction|].
  rewrite <- (firstn_skipn k d). apply in_or_app.
  destruct Hc as [<-|Hc]; [left; exact Hx|right; eapply IH; eauto].
Qed.

(** Broadcasting only repeats elements. *)
Lemma expand_In src : forall tgt (d : list A) x,
  In x (Np.expand src tgt d) -> In x d.
Proof.
  induction src as [|s src IH]; intros [|t tgt] d x H; simpl in H; auto.
  destruct (Nat.eqb s t).
  - apply in_flat_map in H. destruct H as (c & Hc & Hx).
    apply IH in Hx. eapply chunks_In; eauto.
  - apply in_concat in H. destruct H as (l & Hl & Hx).
    apply repeat_spec in Hl. subst l. eapply IH; eauto.
Qed.

Lemma broadcast_to_In (a : Np.ndarray A) s x :
  In x (Np.broadcast_to a s) -> In x (Np.data a).
Proof. apply expand_In. Qed.

Lemma chunks_map (f : A -> B) k n : forall d,
  Np.chunks k n (map f d) = map (map f) (Np.chunks k n d).
Proof.
  induction n as [|n IH]; simpl; intros d; [reflexivity|].
  rewrite firstn_map, skipn_map, IH. reflexivity.
Qed.

Lemma expand_map (f : A -> B) src : forall tgt d,
  Np.expand src tgt (map f d) = map f (Np.expand src tgt d).
Proof.
  induction src as [|s src IH]; intros [|t tgt] d; simpl; auto.
  destruct (Nat.eqb s t).
  - rewrite chunks_map.
    induction (Np.chunks (Np.size src) s d) as [|c cs IHc]; simpl; auto.
    rewrite map_app, IH, IHc. reflexivity.
  - rewrite IH.
    induction t as [|t IHt]; simpl; auto.
    rewrite map_app, IHt. reflexivity.
Qed.

Lemma broadcast_to_map (f : A -> B) (a : Np.ndarray A) s :
  Np.broadcast_to (Np.map_array f a) s = map f (Np.broadcast_to a s).
Proof. apply expand_map. Qed.

Lemma compress_nil mask : Np.compress mask (@nil A) = [].
Proof. destruct mask as [|[|] mask]; reflexivity. Qed.

Lemma combine_map_map (f : A -> B) (g : A -> C) : forall x y,
  combine (map f x) (map g y)
  = map (fun p => (f (fst p), g (snd p))) (combine x y).
Proof.
  induction x as [|x0 x IH]; intros [|y0 y]; simpl; auto.
  rewrite IH. reflexivity.
Qed.

(** Masking commutes with an elementwise operation. *)
Lemma compress_map2 (f : A -> B -> C) mask : forall x y,
  Np.map2 f (Np.compress mask x) (Np.compress mask y)
  = Np.compress mask (Np.map2 f x y).
Proof.
  unfold Np.map2.
  induction mask as [|m mask IH]; intros [|x0 x] [|y0 y]; simpl; auto.
  - destruct m; rewrite ?compress_nil; destruct (Np.compress mask x);
      reflexivity.
  - destruct m; simpl; rewrite IH; reflexivity.
Qed.

(** Assigning through a mask what was read through it is an elementwise
    choice. *)
Lemma put_mask_compress (g : A -> bool) (v c : A -> B) : forall ps,
  Np.put_mask (map g ps) (Np.compress (map g ps) (map v ps)) (map c ps)
  = map (fun p => if g p then v p else c p) ps.
Proof.
  induction ps as [|p ps IH]; simpl; auto.
  destruct (g p); rewrite IH; reflexivity.
Qed.

End ArrayFacts.

Section AllcloseFacts.

Lemma broadcast_dims_refl r : Np.broadcast_dims r r = Some r.
Proof.
  induction r as [|d r IH]; simpl; auto.
  rewrite IH, Nat.eqb_refl. reflexivity.
Qed.

Lemma broadcast_shapes_refl s : Np.broadcast_shapes s s = Some s.
Proof.
  unfold Np.broadcast_shapes. rewrite broadcast_dims_refl. simpl.
  rewrite rev_involutive. reflexivity.
Qed.

Lemma all_map_true {A : Type} (h : A -> bool) (l : list A) :
  Np.all (map h l) = true <-> Forall (fun p => h p = true) l.
Proof.
  unfold Np.all. rewrite forallb_forall, Forall_forall. split.
  - intros H p Hp. apply H, in_map, Hp.
  - intros H b Hb. apply in_map_iff in Hb.
    destruct Hb as (p & <- & Hp). apply H, Hp.
Qed.

Lemma all_finite_In (l : list float) x :
  Np.all (map F64.isfinite l) = true -> In x l -> F64.isfinite x = true.
Proof.
  intros H Hx. apply all_map_true in H.
  rewrite Forall_forall in H. apply H, Hx.
Qed.

Lemma elem_close_finite rtol atol en p :
  F64.isfinite (fst p) = true -> F64.isfinite (snd p) = true ->
  Spec.elem_close rtol atol en p = Np.within_tol (fst p) (snd p) atol rtol.
Proof.
  intros Fx Fy. unfold Spec.elem_close. rewrite Fx, Fy.
  rewrite (isfinite_not_nan _ Fx). simpl. destruct en; reflexivity.
Qed.

Lemma elem_close_spec rtol atol en p :
  Spec.elem_close rtol atol en p = true <-> Spec.position_close rtol atol en p.
Proof.
  unfold Spec.elem_close, Spec.position_close, Spec.within.
  rewrite <- leb_le. fold (Np.within_tol (fst p) (snd p) atol rtol).
  destruct p as [x y]; simpl.
  destruct (F64.isfinite x) eqn:Fx, (F64.isfinite y) eqn:Fy; simpl.
  - rewrite (isfinite_not_nan _ Fx); simpl.
    destruct en; split; intros H; try tauto;
      destruct H as [H|[H|H]]; try tauto;
      try (destruct H as [[H|H] _]; discriminate);
      destruct H as (_ & -> & _); discriminate.
  - rewrite (isfinite_not_nan _ Fx); simpl.
    destruct en; split; intros H; try tauto;
      destruct H as [H|[H|H]]; try tauto;
      try (destruct H as (_ & H & _); discriminate);
      destruct H as (_ & -> & _); discriminate.
  - rewrite (isfinite_not_nan _ Fy), andb_false_r.
    destruct en; split; intros H; try tauto;
      destruct H as [H|[H|H]]; try tauto;
      try (destruct H as (H & _); discriminate);
      destruct H as (_ & _ & ->); discriminate.
  - destruct en; simpl.
    + destruct (F64.isnan x && F64.isnan y) eqn:N.
      * apply andb_prop in N. destruct N as [Nx Ny].
        apply isnan_eq in Nx, Ny. split; auto 6.
      * split; intros H; [tauto|].
        destruct H as [H|[H|H]]; try tauto.
        -- destruct H as (H & _); discriminate.
        -- destruct H as (_ & -> & ->). discriminate.
    + split; intros H; [tauto|].
      destruct H as [H|[H|H]]; try tauto.
      * destruct H as (H & _); discriminate.
      * destruct H as (H & _); discriminate.
Qed.

(** The array [isclose] computes, position by position. *)
Lemma isclose_data a b rtol atol en s :
  Np.broadcast_shapes (Np.shape a) (Np.shape b) = Some s ->
  exists r, Np.isclose a b rtol atol en = Ok r
    /\ Np.data r
       = map (Spec.elem_close rtol atol en)
           (combine (Np.broadcast_to a s) (Np.broadcast_to b s)).
Proof.
  intros Hs. unfold Np.isclose. rewrite Hs.
  set (x := Np.broadcast_to a s). set (y := Np.broadcast_to b s).
  destruct (Np.all (Np.data (Np.map_array F64.isfinite a))
            && Np.all (Np.data (Np.map_array F64.isfinite b))) eqn:Hall.
  - eexists; split; [reflexivity|]. simpl. unfold Np.map2.
    apply andb_prop in Hall. destruct Hall as [Ha Hb]. simpl in Ha, Hb.
    apply map_ext_in. intros [u v] Hp. simpl.
    symmetry. apply elem_close_finite; simpl.
    + apply (all_finite_In _ _ Ha).
      apply in_combine_l in Hp. eapply broadcast_to_In, Hp.
    + apply (all_finite_In _ _ Hb).
      apply in_combine_r in Hp. eapply broadcast_to_In, Hp.
  - eexists; split; [reflexivity|]. cbv zeta.
    rewrite !broadcast_to_map. fold x y.
    rewrite !compress_map2. unfold Np.map2.
    rewrite !combine_map_map, !map_map.
    set (ps := combine x y). cbn [fst snd].
    rewrite (put_mask_compress
               (fun p => F64.isfinite (fst p) && F64.isfinite (snd p))
               (fun p => Np.within_tol (fst p) (snd p) atol rtol)
               (fun _ => false) ps).
    rewrite (put_mask_compress
               (fun p => negb (F64.isfinite (fst p) && F64.isfinite (snd p)))
               (fun p => F64.eqb (fst p) (snd p))).
    destruct en; simpl.
    + rewrite (put_mask_compress
                 (fun p => F64.isnan (fst p) && F64.isnan (snd p))
                 (fun p => F64.isnan (fst p) && F64.isnan (snd p))).
      apply map_ext. intros [u v]. unfold Spec.elem_close. simpl.
      destruct (F64.isnan u && F64.isnan v); reflexivity.
    + apply map_ext. intros [u v]. reflexivity.
Qed.

End AllcloseFacts.

Lemma combine_diag {A : Type} (l : list A) u v :
  In (u, v) (combine l l) -> u = v /\ In u l.
Proof.
  induction l as [|x l IH]; simpl; [contradiction|].
  intros [E|H]; [inversion E; subst; auto|].
  destruct (IH H); auto.
Qed.

(** [all_close] position by position: it raises when the shapes cannot be
    broadcast, and otherwise tests every pair of corresponding elements. *)
Lemma all_close_positions a b rtol atol en :
  match Spec.corresponding a b with
  | Some ps =>
      exists r, all_close a b rtol atol en = Ok r
        /\ (r = true <-> Forall (Spec.position_close rtol atol en) ps)
  | None => all_close a b rtol atol en = Raise ValueError
  end.
Proof.
  unfold Spec.corresponding, all_close, Np.allclose.
  destruct (Np.broadcast_shapes (Np.shape a) (Np.shape b)) as [s|] eqn:Hs.
  - destruct (isclose_data a b rtol atol en Hs) as (r & Hr & Hd).
    rewrite Hr. simpl. eexists; split; [reflexivity|].
    rewrite Hd, all_map_true, !Forall_forall.
    split; intros H p Hp; apply elem_close_spec, H, Hp.
  - unfold Np.isclose. rewrite Hs. reflexivity.
Qed.

Lemma position_close_diag rtol atol en u :
  Spec.nonneg rtol = true -> F64.isfinite rtol = true ->
  Spec.nonneg atol = true -> F64.isnan u = false ->
  Spec.position_close rtol atol en (u, u).
Proof.
  intros Hr Fr Ha Hu. unfold Spec.position_close; simpl.
  pose proof (eqb_refl_not_nan _ Hu) as E.
  destruct (F64.isfinite u) eqn:Fu.
  - left. repeat split. apply leb_le.
    apply within_tol_eqb; assumption.
  - right; left. auto.
Qed.

Lemma lt_zero_not_zero p : Spec.lt F64.zero p -> F64.eqb p F64.zero = false.
Proof.
  unfold Spec.lt. destruct p as [s|[|]| |[|] m e]; simpl; intros H;
    try discriminate; reflexivity.
Qed.

Lemma fold_np_array a p :
  Np.sub_scalar
    (Np.mod_scalar (Np.add_scalar (Np.array a) (F64.div p F64.two)) p)
    (F64.div p F64.two)
  = Np.map_array (fun v => Spec.fold_np v p) a.
Proof.
  unfold Np.sub_scalar, Np.mod_scalar, Np.add_scalar, Np.array, Np.map_array.
  simpl. rewrite !map_map. reflexivity.
Qed.

(** ** The claims *)

(** C1 (fails on the code): the method [Tolerance.all_close] should compare
    as the function [all_close] called with the three stored fields.  It
    passes [rtol] and [atol] only, so the function falls back on its default
    [equal_nan = False]: for an instance built with [equal_nan = True] the
    method answers [False] on [[nan]] against [[nan]], where the function with
    the stored fields answers [True]. *)
Theorem C1_method_all_close_drops_equal_nan :
  forall (rtol atol : float) (a b : ndarray),
    let self := Tolerance.make rtol atol true in
    Tolerance.all_close self a b = all_close a b rtol atol false
    /\ Tolerance.all_close self (vec [F64.nan]) (vec [F64.nan]) = Ok false
    /\ all_close (vec [F64.nan]) (vec [F64.nan]) (Tolerance.rtol self)
         (Tolerance.atol self) (Tolerance.equal_nan self) = Ok true.
Proof. intros rtol atol a b self. repeat split. Qed.

(** C2, as stated, fails on infinite elements: [all_close([inf], [inf])] is
    true although [abs(inf - inf) <= atol + rtol * abs(inf)] is not (the left
    side is NaN). *)
Lemma C2_counterexample :
  let a := vec [F64.inf] in
  Spec.corresponding a a = Some [(F64.inf, F64.inf)]
  /\ Spec.nonneg DEFAULT_RTOL = true /\ Spec.nonneg DEFAULT_ATOL = true
  /\ ~ (all_close a a DEFAULT_RTOL DEFAULT_ATOL false = Ok true
        <-> Forall (Spec.band_or_nan DEFAULT_RTOL DEFAULT_ATOL false)
              [(F64.inf, F64.inf)]).
Proof.
  repeat split. intros [H _].
  specialize (H eq_refl). inversion H as [|p l Hp _]; subst.
  destruct Hp as [[Hp|Hp]|(Hp & _)]; discriminate.
Qed.

(** C2 (amended): [all_close(a, b, rtol, atol, equal_nan)] raises when the
    shapes cannot be broadcast; otherwise it is true if and only if, at every
    pair of corresponding elements [x], [y]: both are finite and
    [abs(x - y) <= atol + rtol * abs(y)]; or one of them is infinite and
    [x == y]; or [equal_nan] is set and both are NaN.  In particular
    [all_close([nan], [nan])] is true with [equal_nan] and false without. *)
Theorem C2_all_close_elementwise a b rtol atol en :
  (all_close a b rtol atol en = Ok true <->
   exists ps, Spec.corresponding a b = Some ps
              /\ Forall (Spec.position_close rtol atol en) ps)
  /\ (all_close a b rtol atol en = Raise ValueError <->
      Spec.corresponding a b = None)
  /\ all_close (vec [F64.nan]) (vec [F64.nan]) rtol atol true = Ok true
  /\ all_close (vec [F64.nan]) (vec [F64.nan]) rtol atol false = Ok false.
Proof.
  rewrite <- and_assoc. split; [|split; reflexivity].
  pose proof (all_close_positions a b rtol atol en) as H.
  destruct (Spec.corresponding a b) as [ps|].
  - destruct H as (r & Hr & Hi). rewrite Hr. split; split.
    + intros E. exists ps. split; [reflexivity|].
      apply Hi. congruence.
    + intros (ps' & E & F). inversion E; subst ps'.
      f_equal. apply Hi, F.
    + discriminate.
    + discriminate.
  - rewrite H. split; split; try discriminate; auto.
    intros (ps & E & _). discriminate.
Qed.

(** C3: [all_near_zero(a, rtol, atol, equal_nan)] is
    [all_close(a, z, rtol, atol, equal_nan)] for [z] the array of the shape
    of [a] whose elements are all zero. *)
Theorem C3_all_near_zero_is_all_close_zeros a rtol atol en :
  let z := Np.zeros (Np.shape a) in
  all_near_zero a rtol atol en = all_close a z rtol atol en
  /\ Np.shape z = Np.shape a
  /\ length (Np.data z) = Np.size (Np.shape a)
  /\ Forall (fun v => v = F64.zero) (Np.data z).
Proof.
  simpl. repeat split.
  - apply repeat_length.
  - apply Forall_forall. intros v Hv. apply repeat_spec in Hv. exact Hv.
Qed.

(** C4: [close(a, b, rtol, atol)] is true if and only if
    [abs(a - b) <= atol + rtol * abs(b)], for all tolerances; it is false as
    soon as [a] or [b] is NaN, and no argument makes NaNs equal. *)
Theorem C4_close_band a b rtol atol :
  (close a b rtol atol = true <-> Spec.within a b rtol atol)
  /\ close F64.nan b rtol atol = false
  /\ close a F64.nan rtol atol = false.
Proof.
  repeat split.
  - intros H. apply leb_le, H.
  - intros H. apply leb_le, H.
  - unfold close. destruct a, rtol; try reflexivity;
      simpl; apply leb_nan_r.
Qed.

(** C5 and C6, on the modular tests, come last, after the rounding of the
    folding is established. *)

(** C7: [close] is not symmetric: [close(0, 100, rtol=1, atol=0)] is true and
    [close(100, 0, rtol=1, atol=0)] is false. *)
Theorem C7_close_not_symmetric :
  close (F64.of_Z 0) (F64.of_Z 100) (F64.of_Z 1) (F64.of_Z 0) = true
  /\ close (F64.of_Z 100) (F64.of_Z 0) (F64.of_Z 1) (F64.of_Z 0) = false
  /\ exists a b rtol atol,
       Spec.nonneg rtol = true /\ Spec.nonneg atol = true
       /\ close a b rtol atol <> close b a rtol atol.
Proof.
  repeat split.
  exists (F64.of_Z 0), (F64.of_Z 100), (F64.of_Z 1), (F64.of_Z 0).
  repeat split. discriminate.
Qed.

(** C8, as stated, fails for the scalars: plus infinity is equal to itself
    and is not NaN, yet [close(inf, inf)] is false, [inf - inf] being NaN. *)
Lemma C8_counterexample :
  F64.eqb F64.inf F64.inf = true
  /\ F64.isnan F64.inf = false
  /\ Spec.nonneg DEFAULT_RTOL = true /\ Spec.nonneg DEFAULT_ATOL = true
  /\ close F64.inf F64.inf DEFAULT_RTOL DEFAULT_ATOL = false.
Proof. repeat split. Qed.

(** C8 (amended): for tolerances [rtol >= 0], finite, and [atol >= 0]:
    [all_close(a, a, rtol, atol, equal_nan)] is true for every array [a]
    without NaN and every flag; [close(a, b, rtol, atol)] is true for all
    finite scalars with [a == b]. *)
Theorem C8_reflexive rtol atol :
  Spec.nonneg rtol = true -> F64.isfinite rtol = true ->
  Spec.nonneg atol = true ->
  (forall a en,
      Forall (fun v => F64.isnan v = false) (Np.data a) ->
      all_close a a rtol atol en = Ok true)
  /\ (forall a b,
         F64.isfinite a = true -> F64.eqb a b = true ->
         close a b rtol atol = true).
Proof.
  intros Hr Fr Ha. split.
  - intros a en Hnan.
    pose proof (all_close_positions a a rtol atol en) as H.
    unfold Spec.corresponding in H. rewrite broadcast_shapes_refl in H.
    destruct H as (r & -> & Hi). f_equal. apply Hi.
    apply Forall_forall. intros [u v] Hp.
    apply combine_diag in Hp. destruct Hp as [<- Hu].
    apply position_close_diag; auto.
    rewrite Forall_forall in Hnan. apply Hnan.
    eapply broadcast_to_In, Hu.
  - intros a b Fa E. apply (within_tol_eqb a b); assumption.
Qed.

Lemma C8_witness :
  all_close (vec [F64.one; F64.inf]) (vec [F64.one; F64.inf])
    DEFAULT_RTOL DEFAULT_ATOL true = Ok true
  /\ close F64.one F64.one DEFAULT_RTOL DEFAULT_ATOL = true.
Proof.
  destruct (@C8_reflexive DEFAULT_RTOL DEFAULT_ATOL eq_refl eq_refl eq_refl)
    as [Harr Hsc].
  split.
  - apply Harr. repeat constructor.
  - apply Hsc; reflexivity.
Defined.

(** C9: [Tolerance.ZERO] has [rtol = 0] and [atol = 0]; [Tolerance.DEFAULT]
    has [rtol = 1e-5], [atol = 1e-8] (the floats nearest to these decimals)
    and [equal_nan = False]; [ZERO.close(1.0, 1.0 + 1e-10)] is false and
    [DEFAULT.close(1.0, 1.0 + 1e-10)] is true. *)
Theorem C9_singletons :
  Tolerance.rtol Tolerance.ZERO = F64.zero
  /\ Tolerance.atol Tolerance.ZERO = F64.zero
  /\ Tolerance.equal_nan Tolerance.ZERO = false
  /\ Tolerance.rtol Tolerance.DEFAULT = F64.lit_1e_5
  /\ Tolerance.atol Tolerance.DEFAULT = F64.lit_1e_8
  /\ Tolerance.equal_nan Tolerance.DEFAULT = false
  /\ Spec.nearest_pow10 F64.lit_1e_5 5
  /\ Spec.nearest_pow10 F64.lit_1e_8 8
  /\ Spec.nearest_pow10 F64.lit_1e_10 10
  /\ Tolerance.close Tolerance.ZERO F64.one (F64.add F64.one F64.lit_1e_10)
     = false
  /\ Tolerance.close Tolerance.DEFAULT F64.one
       (F64.add F64.one F64.lit_1e_10) = true.
Proof.
  repeat split; try (vm_compute; reflexivity).
Qed.

(** C10, as stated, fails for an infinite [rtol]: [inf >= 0], but
    [inf * abs(0)] is NaN, so that [close(0.0, 0, rtol=inf, atol=0.0)] is
    false while [near_zero(0.0, 0.0)] is true. *)
Lemma C10_counterexample :
  Spec.nonneg F64.inf = true /\ Spec.nonneg F64.zero = true
  /\ near_zero F64.zero F64.zero = true
  /\ close F64.zero F64.zero F64.inf F64.zero = false.
Proof. repeat split. Qed.

(** C10 (amended): for every scalar [a], every [atol] and every finite
    [rtol], [near_zero(a, atol)] is [close(a, 0, rtol, atol)]. *)
Theorem C10_near_zero_is_close_to_zero a atol rtol :
  F64.isfinite rtol = true ->
  near_zero a atol = close a F64.zero rtol atol.
Proof.
  intros Fr. unfold near_zero, close.
  rewrite abs_sub_zero.
  destruct (mul_abs_zero rtol Fr) as [s ->].
  rewrite leb_add_zero. reflexivity.
Qed.

Lemma C10_witness :
  F64.isfinite DEFAULT_RTOL = true
  /\ near_zero F64.lit_1e_9 DEFAULT_ATOL
     = close F64.lit_1e_9 F64.zero DEFAULT_RTOL DEFAULT_ATOL.
Proof.
  split; [reflexivity|].
  apply (@C10_near_zero_is_close_to_zero F64.lit_1e_9 DEFAULT_ATOL DEFAULT_RTOL).
  reflexivity.
Defined.

(** ** Beyond the claims: arrays against zero *)

Section ZerosFacts.

Lemma chunks_concat {A : Type} k n : forall (d : list A),
  length d = n * k -> concat (Np.chunks k n d) = d.
Proof.
  induction n as [|n IH]; simpl; intros d H.
  - destruct d; [reflexivity|discriminate].
  - rewrite IH; [apply firstn_skipn|].
    rewrite length_skipn. lia.
Qed.

Lemma chunks_length {A : Type} k n : forall (d c : list A),
  length d = n * k -> In c (Np.chunks k n d) -> length c = k.
Proof.
  induction n as [|n IH]; simpl; intros d c H Hc; [contradiction|].
  destruct Hc as [<-|Hc].
  - rewrite length_firstn. lia.
  - apply (IH (skipn k d)); auto. rewrite length_skipn. lia.
Qed.

(** Broadcasting an array to its own shape leaves its data as they are. *)
Lemma expand_id {A : Type} s : forall (d : list A),
  length d = Np.size s -> Np.expand s s d = d.
Proof.
  induction s as [|n s IH]; intros d H; simpl; auto.
  rewrite Nat.eqb_refl. simpl in H.
  rewrite flat_map_concat_map.
  rewrite (map_ext_in _ (fun c => c)).
  - rewrite map_id. apply chunks_concat. exact H.
  - intros c Hc. apply IH. eapply chunks_length; eauto.
Qed.

Lemma broadcast_to_self {A : Type} (a : Np.ndarray A) :
  length (Np.data a) = Np.size (Np.shape a) ->
  Np.broadcast_to a (Np.shape a) = Np.data a.
Proof.
  intros H. unfold Np.broadcast_to, Np.pad_shape.
  rewrite Nat.sub_diag. simpl. apply expand_id, H.
Qed.

Lemma combine_repeat {A B : Type} (y : B) : forall (l : list A),
  combine l (repeat y (length l)) = map (fun v => (v, y)) l.
Proof.
  induction l as [|x l IH]; simpl; auto. rewrite IH. reflexivity.
Qed.

Lemma all_map_forallb {A : Type} (h : A -> bool) (l : list A) :
  Np.all (map h l) = forallb h l.
Proof.
  unfold Np.all. induction l as [|x l IH]; simpl; auto.
  rewrite IH. reflexivity.
Qed.

Lemma elem_close_zero rtol atol en v :
  Spec.elem_close rtol atol en (v, F64.zero)
  = F64.isfinite v && Np.within_tol v F64.zero atol rtol.
Proof.
  unfold Spec.elem_close. simpl. rewrite !andb_true_r, andb_false_r.
  destruct v as [s|s| |s m e]; simpl; destruct en; try reflexivity;
    destruct s; reflexivity.
Qed.

(** [near_zero] is [close] against zero under a finite [rtol]. *)
Lemma within_tol_zero v rtol atol :
  F64.isfinite rtol = true ->
  Np.within_tol v F64.zero atol rtol = near_zero v atol.
Proof.
  intros Fr. unfold Np.within_tol, near_zero.
  rewrite abs_sub_zero.
  destruct (mul_abs_zero rtol Fr) as [s ->].
  apply leb_add_zero.
Qed.

(** Comparing an array with the zeros of its shape: the elements compared
    are tested one by one against zero, whatever [equal_nan]; they are the
    data of the array when it is well shaped. *)
Lemma all_close_zeros (x : ndarray) rtol atol :
  exists l,
    (forall en,
        all_close x (Np.zeros (Np.shape x)) rtol atol en
        = Ok (forallb (fun v => F64.isfinite v
                                && Np.within_tol v F64.zero atol rtol) l))
    /\ (Spec.well_shaped x -> l = Np.data x).
Proof.
  set (s := Np.shape x). set (z := Np.zeros s).
  set (ps := combine (Np.broadcast_to x s) (Np.broadcast_to z s)).
  exists (map fst ps). split.
  - intros en. unfold all_close, Np.allclose.
    assert (Hs : Np.broadcast_shapes (Np.shape x) (Np.shape z) = Some s)
      by apply broadcast_shapes_refl.
    destruct (isclose_data x z rtol atol en Hs) as (r & Hr & Hd).
    rewrite Hr. simpl. rewrite Hd. fold ps.
    rewrite <- all_map_forallb, map_map. f_equal. f_equal.
    apply map_ext_in. intros [u v] Hp. simpl.
    apply in_combine_r in Hp. apply broadcast_to_In in Hp.
    apply repeat_spec in Hp. subst v. apply elem_close_zero.
  - intros W. unfold ps, z, s.
    rewrite (broadcast_to_self x W).
    change (Np.shape x) with (Np.shape (Np.zeros (Np.shape x))) at 2.
    rewrite (broadcast_to_self (Np.zeros (Np.shape x)))
      by apply repeat_length.
    simpl. rewrite <- W.
    rewrite combine_repeat, map_map. simpl. apply map_id.
Qed.

Lemma forallb_elem_near_zero rtol atol l :
  F64.isfinite rtol = true ->
  forallb (fun v => F64.isfinite v && Np.within_tol v F64.zero atol rtol) l
  = forallb (Spec.elem_near_zero atol) l.
Proof.
  intros Fr. induction l as [|v l IH]; simpl; auto.
  rewrite IH, within_tol_zero by exact Fr. reflexivity.
Qed.

Lemma all_near_zero_mod_unfold a p rtol atol en :
  all_near_zero_mod a p rtol atol en
  = all_close (Np.map_array (fun v => Spec.fold_np v p) a)
      (Np.zeros (Np.shape (Np.map_array (fun v => Spec.fold_np v p) a)))
      rtol atol en.
Proof.
  unfold all_near_zero_mod. rewrite float_div_two. simpl.
  rewrite fold_np_array. reflexivity.
Qed.

End ZerosFacts.

(** X1: the [equal_nan] flag has no effect on [all_near_zero] and
    [all_near_zero_mod]: the array is compared with zeros, which are never
    NaN, so a NaN element is never taken as equal. *)
Theorem X1_equal_nan_irrelevant_against_zero a p rtol atol en :
  all_near_zero a rtol atol en = all_near_zero a rtol atol false
  /\ all_near_zero_mod a p rtol atol en
     = all_near_zero_mod a p rtol atol false.
Proof.
  split.
  - unfold all_near_zero.
    destruct (all_close_zeros a rtol atol) as (l & H & _).
    rewrite (H en), (H false). reflexivity.
  - rewrite !all_near_zero_mod_unfold.
    destruct (all_close_zeros
                (Np.map_array (fun v => Spec.fold_np v p) a) rtol atol)
      as (l & H & _).
    rewrite (H en), (H false). reflexivity.
Qed.

(** X2: for a well-shaped array and a finite [rtol], [all_near_zero] is true
    exactly when every element is finite and [near_zero] of it holds for
    [atol]: [rtol] plays no part, and an infinite or NaN element is never
    near zero, not even under an infinite [atol]. *)
Theorem X2_all_near_zero_elementwise a rtol atol en :
  Spec.well_shaped a -> F64.isfinite rtol = true ->
  all_near_zero a rtol atol en
  = Ok (forallb (fun v => F64.isfinite v && near_zero v atol) (Np.data a)).
Proof.
  intros W Fr. unfold all_near_zero.
  destruct (all_close_zeros a rtol atol) as (l & H & Hl).
  rewrite (H en), (Hl W). f_equal.
  apply forallb_elem_near_zero, Fr.
Qed.

Lemma X2_witness :
  Spec.well_shaped (vec [F64.zero; F64.inf])
  /\ F64.isfinite DEFAULT_RTOL = true
  /\ all_near_zero (vec [F64.zero; F64.inf]) DEFAULT_RTOL F64.inf false
     = Ok (forallb (fun v => F64.isfinite v && near_zero v F64.inf)
             [F64.zero; F64.inf]).
Proof.
  split; [reflexivity|]. split; [reflexivity|].
  apply (@X2_all_near_zero_elementwise (vec [F64.zero; F64.inf])
           DEFAULT_RTOL F64.inf false); reflexivity.
Defined.

(** X3: [all_near_zero] and [all_near_zero_mod] never raise, whatever the
    array, the tolerances and the period (a zero period included): the zeros
    they compare with are built from the shape of the array itself. *)
Theorem X3_array_tests_never_raise a p rtol atol en :
  (exists r, all_near_zero a rtol atol en = Ok r)
  /\ (exists r, all_near_zero_mod a p rtol atol en = Ok r).
Proof.
  split.
  - unfold all_near_zero.
    destruct (all_close_zeros a rtol atol) as (l & H & _).
    rewrite (H en). eexists; reflexivity.
  - rewrite all_near_zero_mod_unfold.
    destruct (all_close_zeros
                (Np.map_array (fun v => Spec.fold_np v p) a) rtol atol)
      as (l & H & _).
    rewrite (H en). eexists; reflexivity.
Qed.

(** X4: for a well-shaped array and a finite [rtol], [all_near_zero_mod] is
    true exactly when every element folds to a finite value of which
    [near_zero] holds for [atol]. *)
Theorem X4_all_near_zero_mod_elementwise a p rtol atol en :
  Spec.well_shaped a -> F64.isfinite rtol = true ->
  all_near_zero_mod a p rtol atol en
  = Ok (forallb (fun v => F64.isfinite (Spec.fold_np v p)
                          && near_zero (Spec.fold_np v p) atol) (Np.data a)).
Proof.
  intros W Fr. rewrite all_near_zero_mod_unfold.
  destruct (all_close_zeros
              (Np.map_array (fun v => Spec.fold_np v p) a) rtol atol)
    as (l & H & Hl).
  rewrite (H en), Hl.
  - rewrite forallb_elem_near_zero by exact Fr. simpl.
    f_equal. induction (Np.data a) as [|v d IH]; simpl; auto.
    rewrite IH. reflexivity.
  - unfold Spec.well_shaped in *. simpl. rewrite length_map. exact W.
Qed.

Lemma X4_witness :
  Spec.well_shaped (vec [F64.of_Z 3])
  /\ F64.isfinite DEFAULT_RTOL = true
  /\ all_near_zero_mod (vec [F64.of_Z 3]) (F64.of_Z 4)
       DEFAULT_RTOL DEFAULT_ATOL false
     = Ok (forallb (fun v => F64.isfinite (Spec.fold_np v (F64.of_Z 4))
                      && near_zero (Spec.fold_np v (F64.of_Z 4)) DEFAULT_ATOL)
             [F64.of_Z 3]).
Proof.
  split; [reflexivity|]. split; [reflexivity|].
  apply (@X4_all_near_zero_mod_elementwise (vec [F64.of_Z 3]) (F64.of_Z 4)
           DEFAULT_RTOL DEFAULT_ATOL false); reflexivity.
Defined.

(** ** Beyond the claims: scalars against arrays, errors, non-finite input *)

Section ScalarFacts.

Lemma fold_np_py v p :
  F64.eqb p F64.zero = false -> Spec.fold_np v p = Spec.fold_py v p.
Proof.
  intros H. unfold Spec.fold_np, Spec.fold_py, Np.remainder.
  rewrite H. reflexivity.
Qed.

Lemma near_zero_mod_ok a p atol :
  F64.eqb p F64.zero = false ->
  near_zero_mod a p atol = Ok (near_zero (Spec.fold_py a p) atol).
Proof.
  intros H. unfold near_zero_mod. rewrite float_div_two. simpl.
  unfold Py.float_rem. rewrite H. reflexivity.
Qed.

(** Under a finite tolerance only finite numbers are near zero. *)
Lemma near_zero_isfinite v atol :
  F64.isfinite atol = true -> near_zero v atol = true ->
  F64.isfinite v = true.
Proof.
  unfold near_zero.
  destruct v as [s|s| |s m e]; destruct atol as [sa|sa| |sa ma ea];
    simpl; intros Fa H; try discriminate; try reflexivity;
    destruct sa; discriminate.
Qed.

Lemma fmod_nonfinite x p : F64.isfinite x = false -> F64.fmod x p = F64.nan.
Proof.
  destruct x as [s|s| |s m e]; simpl; intros H; try discriminate;
    destruct p; reflexivity.
Qed.

Lemma add_nonfinite_l a h :
  F64.isfinite a = false -> F64.isfinite (F64.add a h) = false.
Proof.
  destruct a as [s|[|]| |s m e]; simpl; intros H; try discriminate;
    destruct h as [sh|[|]| |sh mh eh]; reflexivity.
Qed.

Lemma add_nonfinite_r a h :
  F64.isfinite h = false -> F64.isfinite (F64.add a h) = false.
Proof.
  destruct h as [s|[|]| |s m e]; simpl; intros H; try discriminate;
    destruct a as [sa|[|]| |sa ma ea]; reflexivity.
Qed.

Lemma div_two_nonfinite p :
  F64.isfinite p = false -> F64.isfinite (F64.div p F64.two) = false.
Proof.
  destruct p as [s|[|]| |s m e]; simpl; intros H; try discriminate;
    reflexivity.
Qed.

Lemma adjust_rem_nan p : F64.adjust_rem F64.nan p = F64.nan.
Proof.
  unfold F64.adjust_rem. simpl.
  destruct (xorb (F64.ltb p F64.zero) (F64.ltb F64.nan F64.zero));
    reflexivity.
Qed.

End ScalarFacts.

(** X5: on two finite scalars the array comparison and the scalar one
    agree: [all_close(x, y, rtol, atol, equal_nan)] returns
    [close(x, y, rtol, atol)], as the docstring of [Tolerance] says of the
    scalar methods. *)
Theorem X5_all_close_of_finite_scalars x y rtol atol en :
  F64.isfinite x = true -> F64.isfinite y = true ->
  all_close (Spec.scalar x) (Spec.scalar y) rtol atol en
  = Ok (close x y rtol atol).
Proof.
  intros Fx Fy. unfold all_close, Np.allclose.
  assert (Hs : Np.broadcast_shapes (Np.shape (Spec.scalar x))
                 (Np.shape (Spec.scalar y)) = Some []) by reflexivity.
  destruct (isclose_data (Spec.scalar x) (Spec.scalar y) rtol atol en Hs)
    as (r & Hr & Hd).
  rewrite Hr. simpl. rewrite Hd. simpl.
  rewrite elem_close_finite by assumption. simpl.
  unfold Np.all. simpl. rewrite andb_true_r. reflexivity.
Qed.

Lemma X5_witness :
  F64.isfinite F64.one = true /\ F64.isfinite F64.two = true
  /\ all_close (Spec.scalar F64.one) (Spec.scalar F64.two)
       DEFAULT_RTOL DEFAULT_ATOL true
     = Ok (close F64.one F64.two DEFAULT_RTOL DEFAULT_ATOL).
Proof.
  split; [reflexivity|]. split; [reflexivity|].
  apply (@X5_all_close_of_finite_scalars F64.one F64.two
           DEFAULT_RTOL DEFAULT_ATOL true); reflexivity.
Defined.

(** X6: for a non-zero period and finite tolerances the array test of a
    scalar and the scalar test agree:
    [all_near_zero_mod(x, p, rtol, atol, equal_nan)] returns what
    [near_zero_mod(x, p, atol)] returns. *)
Theorem X6_all_near_zero_mod_of_scalar x p rtol atol en :
  F64.eqb p F64.zero = false ->
  F64.isfinite rtol = true -> F64.isfinite atol = true ->
  all_near_zero_mod (Spec.scalar x) p rtol atol en = near_zero_mod x p atol.
Proof.
  intros Hp Fr Fa.
  rewrite all_near_zero_mod_unfold, near_zero_mod_ok by exact Hp.
  destruct (all_close_zeros
              (Np.map_array (fun v => Spec.fold_np v p) (Spec.scalar x))
              rtol atol) as (l & H & Hl).
  rewrite (H en), Hl by reflexivity. simpl.
  rewrite andb_true_r, within_tol_zero by exact Fr.
  rewrite fold_np_py by exact Hp. f_equal.
  destruct (near_zero (Spec.fold_py x p) atol) eqn:N.
  - rewrite (near_zero_isfinite _ _ Fa N). reflexivity.
  - apply andb_false_r.
Qed.

Lemma X6_witness :
  F64.eqb (F64.of_Z 4) F64.zero = false
  /\ F64.isfinite DEFAULT_RTOL = true /\ F64.isfinite DEFAULT_ATOL = true
  /\ all_near_zero_mod (Spec.scalar (F64.of_Z 3)) (F64.of_Z 4)
       DEFAULT_RTOL DEFAULT_ATOL false
     = near_zero_mod (F64.of_Z 3) (F64.of_Z 4) DEFAULT_ATOL.
Proof.
  split; [reflexivity|]. split; [reflexivity|]. split; [reflexivity|].
  apply (@X6_all_near_zero_mod_of_scalar (F64.of_Z 3) (F64.of_Z 4)
           DEFAULT_RTOL DEFAULT_ATOL false); reflexivity.
Defined.

(** X7: [near_zero_mod] raises [ZeroDivisionError] exactly when the period
    compares equal to zero (a zero of either sign), whatever [a] and [atol],
    and it raises no other exception; the same holds through the method
    [Tolerance.near_zero_mod], for every instance and every period. *)
Theorem X7_near_zero_mod_raises (self : Tolerance.t) a p atol :
  (near_zero_mod a p atol = Raise ZeroDivisionError
   <-> F64.eqb p F64.zero = true)
  /\ (Tolerance.near_zero_mod self a p = Raise ZeroDivisionError
      <-> F64.eqb p F64.zero = true)
  /\ (forall e, near_zero_mod a p atol = Raise e -> e = ZeroDivisionError)
  /\ (forall e, Tolerance.near_zero_mod self a p = Raise e
                -> e = ZeroDivisionError)
  /\ near_zero_mod a p atol <> Raise ValueError
  /\ Tolerance.near_zero_mod self a p <> Raise ValueError
  /\ near_zero_mod a F64.zero atol = Raise ZeroDivisionError
  /\ near_zero_mod a (S754_zero true) atol = Raise ZeroDivisionError
  /\ Tolerance.near_zero_mod self a F64.zero = Raise ZeroDivisionError
  /\ Tolerance.near_zero_mod self a (S754_zero true) = Raise ZeroDivisionError.
Proof.
  assert (Z : forall x q, F64.eqb q F64.zero = true ->
                near_zero_mod a q x = Raise ZeroDivisionError).
  { intros x q Hq. unfold near_zero_mod. rewrite float_div_two. simpl.
    unfold Py.float_rem. rewrite Hq. reflexivity. }
  assert (G : forall x,
    (near_zero_mod a p x = Raise ZeroDivisionError
     <-> F64.eqb p F64.zero = true)
    /\ (forall e, near_zero_mod a p x = Raise e -> e = ZeroDivisionError)).
  { intros x. destruct (F64.eqb p F64.zero) eqn:Hp.
    - rewrite (Z x p Hp). split; [split; reflexivity|].
      intros e H. injection H as <-. reflexivity.
    - rewrite near_zero_mod_ok by exact Hp.
      split; [split; discriminate|]. intros e H. discriminate H. }
  unfold Tolerance.near_zero_mod.
  destruct (G atol) as [I1 N1]. destruct (G (Tolerance.atol self)) as [I2 N2].
  split; [exact I1|]. split; [exact I2|].
  split; [exact N1|]. split; [exact N2|].
  split; [intros H; apply N1 in H; discriminate H|].
  split; [intros H; apply N2 in H; discriminate H|].
  repeat split; apply Z; reflexivity.
Qed.

Lemma X7_witness :
  near_zero_mod F64.one F64.zero DEFAULT_ATOL = Raise ZeroDivisionError
  /\ Tolerance.near_zero_mod Tolerance.DEFAULT F64.one (S754_zero true)
     = Raise ZeroDivisionError
  /\ F64.eqb (F64.of_Z 4) F64.zero = false
  /\ near_zero_mod (F64.of_Z 3) (F64.of_Z 4) DEFAULT_ATOL
     <> Raise ZeroDivisionError.
Proof.
  split.
  { apply (proj1 (X7_near_zero_mod_raises Tolerance.DEFAULT F64.one F64.zero
                    DEFAULT_ATOL)).
    reflexivity. }
  split.
  { apply (proj1 (proj2 (X7_near_zero_mod_raises Tolerance.DEFAULT F64.one
                           (S754_zero true) DEFAULT_ATOL))).
    reflexivity. }
  split; [reflexivity|].
  intros H.
  apply (proj1 (X7_near_zero_mod_raises Tolerance.DEFAULT (F64.of_Z 3)
                  (F64.of_Z 4) DEFAULT_ATOL)) in H.
  discriminate H.
Defined.

(** X8: with a non-zero period, an infinite or NaN argument, or an infinite
    or NaN period, makes [near_zero_mod] return [False], whatever [atol],
    and raise nothing. *)
Theorem X8_near_zero_mod_of_non_finite a p atol :
  F64.eqb p F64.zero = false ->
  F64.isfinite a && F64.isfinite p = false ->
  near_zero_mod a p atol = Ok false.
Proof.
  intros Hp NF. rewrite near_zero_mod_ok by exact Hp. f_equal.
  unfold Spec.fold_py.
  rewrite fmod_nonfinite, adjust_rem_nan; [destruct atol; reflexivity|].
  apply andb_false_iff in NF. destruct NF as [Na|Np].
  - apply add_nonfinite_l, Na.
  - apply add_nonfinite_r, div_two_nonfinite, Np.
Qed.

Lemma X8_witness :
  F64.eqb F64.one F64.zero = false
  /\ F64.isfinite F64.inf && F64.isfinite F64.one = false
  /\ near_zero_mod F64.inf F64.one F64.inf = Ok false.
Proof.
  split; [reflexivity|]. split; [reflexivity|].
  apply (@X8_near_zero_mod_of_non_finite F64.inf F64.one F64.inf);
    reflexivity.
Defined.

(** ** Beyond the claims: the order of floats and [near_zero] *)

Section OrderFacts.

Lemma le_nan_l y : ~ Spec.le F64.nan y.
Proof. intros [H|H]; discriminate. Qed.

Lemma le_nan_r x : ~ Spec.le x F64.nan.
Proof. intros [H|H]; destruct x; discriminate. Qed.

(** [<=] on floats is transitive. *)
Lemma le_trans x y z : Spec.le x y -> Spec.le y z -> Spec.le x z.
Proof.
  unfold Spec.le.
  destruct x as [sx|sx| |sx mx ex]; destruct y as [sy|sy| |sy my ey];
    destruct z as [sz|sz| |sz mz ez]; simpl;
    try (intros [H|H]; discriminate H);
    try (intros _ [H|H]; discriminate H);
    repeat match goal with s : bool |- _ => destruct s end;
    try solve [intros [H|H] [H'|H'];
               (discriminate H || discriminate H' || auto)];
    change (Pos.compare_cont Eq mx my) with (Pos.compare mx my);
    change (Pos.compare_cont Eq my mz) with (Pos.compare my mz);
    change (Pos.compare_cont Eq mx mz) with (Pos.compare mx mz);
    destruct (Z.compare_spec ex ey); destruct (Z.compare_spec ey ez);
    destruct (Z.compare_spec ex ez); try lia; subst;
    destruct (Pos.compare_spec mx my); destruct (Pos.compare_spec my mz);
    destruct (Pos.compare_spec mx mz); try lia; subst; simpl;
    intros [K|K] [K'|K']; (discriminate K || discriminate K' || auto).
Qed.

End OrderFacts.

(** X9: [near_zero(a, atol)] is true only if [a] is not NaN and [atol] is at
    least zero: a negative or NaN tolerance accepts nothing, zero included. *)
Theorem X9_near_zero_needs_tolerance a atol :
  near_zero a atol = true ->
  F64.isnan a = false /\ F64.leb F64.zero atol = true.
Proof.
  unfold near_zero.
  destruct a as [s|s| |s m e]; destruct atol as [sa|[|]| |[|] ma ea];
    simpl; intros H; try discriminate H; split; reflexivity.
Qed.

Lemma X9_witness :
  near_zero F64.lit_1e_9 DEFAULT_ATOL = true
  /\ F64.isnan F64.lit_1e_9 = false /\ F64.leb F64.zero DEFAULT_ATOL = true.
Proof.
  split; [reflexivity|].
  apply (@X9_near_zero_needs_tolerance F64.lit_1e_9 DEFAULT_ATOL).
  reflexivity.
Defined.

(** X10: [near_zero] grows with the tolerance: what is near zero for [atol]
    is near zero for every [atol' >= atol]. *)
Theorem X10_near_zero_monotone a atol atol' :
  Spec.le atol atol' -> near_zero a atol = true -> near_zero a atol' = true.
Proof.
  unfold near_zero. intros L H.
  apply leb_le. apply leb_le in H. exact (le_trans H L).
Qed.

Lemma X10_witness :
  Spec.le F64.lit_1e_9 DEFAULT_ATOL
  /\ near_zero F64.lit_1e_10 F64.lit_1e_9 = true
  /\ near_zero F64.lit_1e_10 DEFAULT_ATOL = true.
Proof.
  assert (L : Spec.le F64.lit_1e_9 DEFAULT_ATOL) by (left; reflexivity).
  split; [exact L|]. split; [reflexivity|].
  apply (@X10_near_zero_monotone F64.lit_1e_10 F64.lit_1e_9 DEFAULT_ATOL L).
  reflexivity.
Defined.

(** X11: under the zero tolerance [Tolerance.ZERO.near_zero(a)] is [a == 0]:
    true of the two zeros and of nothing else. *)
Theorem X11_zero_tolerance_near_zero a :
  Tolerance.near_zero Tolerance.ZERO a = F64.eqb a F64.zero.
Proof.
  destruct a as [[|]|[|]| |[|] m e]; reflexivity.
Qed.

(** ** Beyond the claims: the zero tolerance is exact equality *)

Section ExactFacts.

Local Open Scope Z_scope.

Lemma shr_1_div2 mrs :
  0 <= shr_m mrs -> shr_m (shr_1 mrs) = shr_m mrs / 2.
Proof.
  destruct mrs as [m r s]; simpl. intros H.
  rewrite <- Z.div2_div.
  destruct m as [|[p|p|]|p]; try reflexivity; lia.
Qed.

Lemma pow2_xO p : 2 ^ Zpos p~0 = 2 ^ Zpos p * 2 ^ Zpos p.
Proof.
  replace (Zpos p~0) with (Zpos p + Zpos p) by lia.
  apply Z.pow_add_r; lia.
Qed.

Lemma pow2_xI p : 2 ^ Zpos p~1 = 2 * (2 ^ Zpos p * 2 ^ Zpos p).
Proof.
  replace (Zpos p~1) with (1 + Zpos p~0) by lia.
  rewrite Z.pow_add_r, pow2_xO by lia. reflexivity.
Qed.

Lemma iter_shr_1_div p : forall mrs,
  0 <= shr_m mrs ->
  shr_m (iter_pos shr_1 p mrs) = shr_m mrs / 2 ^ Zpos p.
Proof.
  assert (P : forall q, 0 < 2 ^ Zpos q) by (intros; apply Z.pow_pos_nonneg; lia).
  induction p as [p IH|p IH|]; intros mrs H; simpl iter_pos.
  - rewrite IH by (apply iter_shr_1_nonneg, shr_1_nonneg, H).
    rewrite IH by (apply shr_1_nonneg, H).
    rewrite shr_1_div2 by exact H.
    pose proof (P p).
    rewrite !Z.div_div by lia.
    f_equal. rewrite pow2_xI. ring.
  - rewrite IH by (apply iter_shr_1_nonneg, H).
    rewrite IH by exact H.
    pose proof (P p).
    rewrite !Z.div_div by lia.
    f_equal. rewrite pow2_xO. ring.
  - rewrite shr_1_div2 by exact H. reflexivity.
Qed.

Lemma digits2_pos_lower m : 2 ^ (Zpos (digits2_pos m) - 1) <= Zpos m.
Proof.
  induction m as [m IH|m IH|]; simpl digits2_pos.
  - rewrite Pos2Z.inj_succ.
    replace (Z.succ (Zpos (digits2_pos m)) - 1)
      with (Z.succ (Zpos (digits2_pos m) - 1)) by lia.
    rewrite Z.pow_succ_r by lia. lia.
  - rewrite Pos2Z.inj_succ.
    replace (Z.succ (Zpos (digits2_pos m)) - 1)
      with (Z.succ (Zpos (digits2_pos m) - 1)) by lia.
    rewrite Z.pow_succ_r by lia. lia.
  - simpl. lia.
Qed.

Lemma digits2_pos_shift m d :
  Zpos (digits2_pos (Pos.iter xO m d)) = Zpos (digits2_pos m) + Zpos d.
Proof.
  induction d as [|d IH] using Pos.peano_ind.
  - simpl. lia.
  - rewrite Pos.iter_succ. simpl digits2_pos.
    rewrite Pos2Z.inj_succ, IH. lia.
Qed.

(** Above the least exponent, rounding shifts out fewer bits than the
    mantissa has: a positive mantissa stays positive. *)
Lemma shr_fexp_pos q e l :
  SpecFloat.emin F64.prec F64.emax <= e ->
  0 < shr_m (fst (shr_fexp F64.prec F64.emax (Zpos q) e l))
  /\ SpecFloat.emin F64.prec F64.emax
     <= snd (shr_fexp F64.prec F64.emax (Zpos q) e l).
Proof.
  intros He. unfold shr_fexp, shr. simpl Zdigits2.
  assert (Hm : shr_m (shr_record_of_loc (Zpos q) l) = Zpos q)
    by (destruct l as [|[ | | ]]; reflexivity).
  pose proof (digits2_pos_lower q) as Hd.
  unfold fexp, SpecFloat.emin, F64.prec, F64.emax in *.
  destruct (Z.max (Zpos (digits2_pos q) + e - 53) (3 - 1024 - 53) - e)
    as [|n|n] eqn:En; simpl fst; simpl snd.
  - rewrite Hm. lia.
  - rewrite iter_shr_1_div by (rewrite Hm; lia). rewrite Hm. split; [|lia].
    apply Z.div_str_pos. split; [apply Z.pow_pos_nonneg; lia|].
    apply Z.le_trans with (2 ^ (Zpos (digits2_pos q) - 1)); [|exact Hd].
    apply Z.pow_le_mono_r; lia.
  - rewrite Hm. lia.
Qed.

Lemma round_nearest_even_ge m l : m <= round_nearest_even m l.
Proof.
  destruct l as [|[ | | ]]; simpl; try lia. destruct (Z.even m); lia.
Qed.

Lemma binary_round_aux_not_zero s q e :
  SpecFloat.emin F64.prec F64.emax <= e ->
  Spec.is_zero (binary_round_aux F64.prec F64.emax s (Zpos q) e loc_Exact) = false.
Proof.
  intros He. unfold binary_round_aux.
  destruct (shr_fexp_pos q loc_Exact He) as [H1 H2].
  destruct (shr_fexp F64.prec F64.emax (Zpos q) e loc_Exact) as [mrs' e'].
  simpl in H1, H2.
  pose proof (round_nearest_even_ge (shr_m mrs') (loc_of_shr_record mrs'))
    as H3.
  destruct (round_nearest_even (shr_m mrs') (loc_of_shr_record mrs'))
    as [|q'|q'] eqn:Er; try lia.
  destruct (shr_fexp_pos q' loc_Exact H2) as [H4 _].
  destruct (shr_fexp F64.prec F64.emax (Zpos q') e' loc_Exact) as [mrs'' e''].
  simpl in H4.
  destruct (shr_m mrs'') as [|q''|q'']; try lia.
  destruct (_ <=? _); reflexivity.
Qed.

Lemma binary_round_not_zero s q e :
  SpecFloat.emin F64.prec F64.emax <= e ->
  Spec.is_zero (binary_round F64.prec F64.emax s q e) = false.
Proof.
  intros He. unfold binary_round, shl_align.
  set (e' := fexp F64.prec F64.emax (Zpos (digits2_pos q) + e)).
  assert (He' : SpecFloat.emin F64.prec F64.emax <= e')
    by (unfold e', fexp; lia).
  destruct (e' - e) as [|d|d]; apply binary_round_aux_not_zero; assumption.
Qed.

(** A rounded integer is zero only if the integer is. *)
Lemma binary_normalize_zero z e :
  SpecFloat.emin F64.prec F64.emax <= e ->
  Spec.is_zero (binary_normalize F64.prec F64.emax z e false) = true -> z = 0.
Proof.
  intros He. destruct z as [|q|q]; simpl; auto; intros H;
    rewrite binary_round_not_zero in H by exact He; discriminate.
Qed.

Lemma valid_exponent s m e :
  Spec.valid (S754_finite s m e) ->
  fexp F64.prec F64.emax (Zpos (digits2_pos m) + e) = e.
Proof.
  unfold Spec.valid, valid_binary, bounded, canonical_mantissa.
  intros H. apply andb_prop in H. destruct H as [H _].
  apply Z.eqb_eq, H.
Qed.

(** Two canonical mantissas that agree once aligned are the same. *)
Lemma aligned_eq s1 m1 e1 s2 m2 e2 :
  Spec.valid (S754_finite s1 m1 e1) -> Spec.valid (S754_finite s2 m2 e2) ->
  fst (shl_align m1 e1 (Z.min e1 e2)) = fst (shl_align m2 e2 (Z.min e1 e2)) ->
  m1 = m2 /\ e1 = e2.
Proof.
  intros V1 V2. apply valid_exponent in V1, V2.
  unfold fexp, SpecFloat.emin, F64.prec, F64.emax in V1, V2.
  unfold shl_align.
  destruct (Z.min e1 e2 - e1) as [|d1|d1] eqn:E1;
    destruct (Z.min e1 e2 - e2) as [|d2|d2] eqn:E2; simpl; intros H;
    try lia.
  - exfalso. pose proof (digits2_pos_shift m2 d2) as D.
    rewrite <- H in D. lia.
  - exfalso. pose proof (digits2_pos_shift m1 d1) as D.
    rewrite H in D. lia.
Qed.

Lemma abs_leb_zero r :
  F64.leb (F64.abs r) F64.zero = true -> Spec.is_zero r = true.
Proof. destruct r as [s|s| |s m e]; simpl; intros H; auto; discriminate. Qed.

Lemma sub_zero_eqb a b :
  Spec.valid a -> Spec.valid b ->
  Spec.is_zero (F64.sub a b) = true ->
  F64.isfinite a = true /\ F64.eqb a b = true.
Proof.
  intros Va Vb.
  destruct a as [sa|sa| |sa ma ea]; destruct b as [sb|sb| |sb mb eb];
    try (simpl; intros H; discriminate H);
    try (destruct sa, sb; simpl; intros H; discriminate H).
  - intros _. split; reflexivity.
  - unfold F64.sub, SFsub. intros H.
    assert (He : SpecFloat.emin F64.prec F64.emax <= Z.min ea eb).
    { pose proof (valid_exponent Va) as Ea.
      pose proof (valid_exponent Vb) as Eb.
      unfold fexp in Ea, Eb. lia. }
    apply (binary_normalize_zero _ He) in H.
    assert (Hs : sa = sb /\ fst (shl_align ma ea (Z.min ea eb))
                            = fst (shl_align mb eb (Z.min ea eb))).
    { unfold cond_Zopp in H.
      destruct sa, sb; split; try reflexivity; try lia; exfalso; lia. }
    destruct Hs as [-> Hm].
    destruct (aligned_eq Va Vb Hm) as [-> ->].
    split; [reflexivity|]. apply eqb_refl_not_nan. reflexivity.
Qed.

End ExactFacts.

(** X12: under the zero tolerance [Tolerance.ZERO.close(a, b)] is exact
    equality of finite numbers: it is true if and only if [a] is finite and
    [a == b] (the two infinities are not close to themselves). *)
Theorem X12_zero_tolerance_close_is_equality a b :
  Spec.valid a -> Spec.valid b ->
  (Tolerance.close Tolerance.ZERO a b = true
   <-> F64.isfinite a = true /\ F64.eqb a b = true).
Proof.
  intros Va Vb.
  change (Tolerance.close Tolerance.ZERO a b)
    with (close a b F64.zero F64.zero).
  split.
  - unfold close. intros H.
    assert (Hb : F64.add F64.zero (F64.mul F64.zero (F64.abs b)) = F64.zero).
    { destruct b as [sb|sb| |sb mb eb]; try reflexivity;
        simpl in H; rewrite leb_nan_r in H; discriminate. }
    rewrite Hb in H. apply abs_leb_zero in H.
    apply sub_zero_eqb; assumption.
  - intros [Fa E]. apply (within_tol_eqb a b); auto.
Qed.

Lemma X12_witness :
  Spec.valid F64.one /\ Spec.valid F64.two
  /\ (Tolerance.close Tolerance.ZERO F64.one F64.two = true
      <-> F64.isfinite F64.one = true /\ F64.eqb F64.one F64.two = true).
Proof.
  split; [reflexivity|]. split; [reflexivity|].
  apply (@X12_zero_tolerance_close_is_equality F64.one F64.two);
    reflexivity.
Defined.

(** ** Beyond the claims: NaNs, shapes and signs *)

Section MoreFacts.

(** [equal_nan] is consulted only where both elements are NaN. *)
Lemma elem_close_no_nan rtol atol en p :
  F64.isnan (fst p) = false \/ F64.isnan (snd p) = false ->
  Spec.elem_close rtol atol en p = Spec.elem_close rtol atol false p.
Proof.
  unfold Spec.elem_close. intros [H|H]; rewrite H;
    rewrite ?andb_false_r; destruct en; reflexivity.
Qed.

Lemma all_close_flag_irrelevant a b rtol atol en :
  Forall (fun v => F64.isnan v = false) (Np.data a)
  \/ Forall (fun v => F64.isnan v = false) (Np.data b) ->
  all_close a b rtol atol en = all_close a b rtol atol false.
Proof.
  intros H. unfold all_close, Np.allclose.
  destruct (Np.broadcast_shapes (Np.shape a) (Np.shape b)) as [s|] eqn:Hs.
  - destruct (isclose_data a b rtol atol en Hs) as (r & Hr & Hd).
    destruct (isclose_data a b rtol atol false Hs) as (r' & Hr' & Hd').
    rewrite Hr, Hr'. simpl. rewrite Hd, Hd'. do 2 f_equal.
    apply map_ext_in. intros [u v] Hp. apply elem_close_no_nan. simpl.
    rewrite !Forall_forall in H. destruct H as [H|H]; [left|right]; apply H.
    + apply in_combine_l in Hp. eapply broadcast_to_In, Hp.
    + apply in_combine_r in Hp. eapply broadcast_to_In, Hp.
  - unfold Np.isclose. rewrite Hs. reflexivity.
Qed.

Lemma mul_nan_r x : F64.mul x F64.nan = F64.nan.
Proof. destruct x; reflexivity. Qed.

Lemma add_nan_r x : F64.add x F64.nan = F64.nan.
Proof. destruct x; reflexivity. Qed.

Lemma sub_nan_r x : F64.sub x F64.nan = F64.nan.
Proof. destruct x; reflexivity. Qed.

Lemma broadcast_dims_comm r1 : forall r2,
  Np.broadcast_dims r1 r2 = Np.broadcast_dims r2 r1.
Proof.
  induction r1 as [|d1 r1 IH]; intros [|d2 r2]; simpl; auto.
  rewrite IH. destruct (Np.broadcast_dims r2 r1) as [r|]; auto.
  rewrite (Nat.eqb_sym d2 d1).
  destruct (Nat.eqb_spec d1 d2) as [->|N]; auto.
  destruct (Nat.eqb_spec d1 1) as [->|N1];
    destruct (Nat.eqb_spec d2 1) as [->|N2]; auto; contradiction.
Qed.

Lemma all_close_raises a b rtol atol en :
  all_close a b rtol atol en = Raise ValueError
  <-> Np.broadcast_shapes (Np.shape a) (Np.shape b) = None.
Proof.
  pose proof (all_close_positions a b rtol atol en) as H.
  unfold Spec.corresponding in H.
  destruct (Np.broadcast_shapes (Np.shape a) (Np.shape b)) as [s|].
  - destruct H as (r & -> & _). split; discriminate.
  - rewrite H. split; reflexivity.
Qed.

Lemma abs_binary_round s m e :
  F64.abs (binary_round F64.prec F64.emax s m e)
  = F64.abs (binary_round F64.prec F64.emax false m e).
Proof.
  unfold binary_round. destruct (shl_align m e _) as [mz ez].
  unfold binary_round_aux.
  destruct (shr_fexp F64.prec F64.emax (Zpos mz) ez loc_Exact) as [mrs' e'].
  destruct (shr_fexp F64.prec F64.emax _ e' loc_Exact) as [mrs'' e''].
  destruct (shr_m mrs''); try reflexivity.
  destruct (_ <=? _)%Z; reflexivity.
Qed.

Lemma abs_binary_normalize_opp z e :
  F64.abs (binary_normalize F64.prec F64.emax (- z) e false)
  = F64.abs (binary_normalize F64.prec F64.emax z e false).
Proof.
  destruct z as [|q|q]; simpl; auto using abs_binary_round.
Qed.

Lemma abs_opp x : F64.abs (SFopp x) = F64.abs x.
Proof. destruct x; reflexivity. Qed.

(** The distance of two floats is that of their opposites. *)
Lemma abs_sub_opp a b :
  F64.abs (F64.sub (SFopp a) (SFopp b)) = F64.abs (F64.sub a b).
Proof.
  destruct a as [[|]|[|]| |sa ma ea]; destruct b as [[|]|[|]| |sb mb eb];
    try reflexivity.
  unfold F64.sub, SFsub, SFopp.
  rewrite <- abs_binary_normalize_opp. do 2 f_equal.
  destruct sa, sb; unfold cond_Zopp; simpl negb; lia.
Qed.

Lemma fold_np_zero_period v p :
  F64.eqb p F64.zero = true -> Spec.fold_np v p = F64.nan.
Proof.
  intros H. unfold Spec.fold_np, Np.remainder. rewrite H.
  destruct p as [s|s| |s m e]; try (destruct s; discriminate H);
    try discriminate H.
  assert (E : forall x, F64.fmod x (S754_zero s) = F64.nan)
    by (intros x; destruct x; reflexivity).
  rewrite E. reflexivity.
Qed.

End MoreFacts.

(** X13: the flag that [Tolerance.all_close] leaves out is consulted only
    where both arrays hold a NaN: when one of the two arrays has no NaN
    element, the method returns what [all_close] returns with the three
    stored fields, whatever the instance. *)
Theorem X13_method_all_close_without_nan self a b :
  Forall (fun v => F64.isnan v = false) (Np.data a)
  \/ Forall (fun v => F64.isnan v = false) (Np.data b) ->
  Tolerance.all_close self a b
  = all_close a b (Tolerance.rtol self) (Tolerance.atol self)
      (Tolerance.equal_nan self).
Proof.
  intros H. unfold Tolerance.all_close, DEFAULT_EQUAL_NAN.
  symmetry. apply all_close_flag_irrelevant, H.
Qed.

Lemma X13_witness :
  (Forall (fun v => F64.isnan v = false) (Np.data (vec [F64.one]))
   \/ Forall (fun v => F64.isnan v = false) (Np.data (vec [F64.nan])))
  /\ Tolerance.all_close (Tolerance.make DEFAULT_RTOL DEFAULT_ATOL true)
       (vec [F64.one]) (vec [F64.nan])
     = all_close (vec [F64.one]) (vec [F64.nan]) DEFAULT_RTOL DEFAULT_ATOL
         true.
Proof.
  assert (H : Forall (fun v => F64.isnan v = false) (Np.data (vec [F64.one]))
              \/ Forall (fun v => F64.isnan v = false)
                   (Np.data (vec [F64.nan])))
    by (left; repeat constructor).
  split; [exact H|].
  apply (@X13_method_all_close_without_nan
           (Tolerance.make DEFAULT_RTOL DEFAULT_ATOL true)
           (vec [F64.one]) (vec [F64.nan]) H).
Defined.

(** X14: [close(a, b, rtol, atol)] is true only if none of its four
    arguments is NaN: a NaN tolerance accepts nothing. *)
Theorem X14_close_rejects_nan a b rtol atol :
  close a b rtol atol = true ->
  F64.isnan a = false /\ F64.isnan b = false
  /\ F64.isnan rtol = false /\ F64.isnan atol = false.
Proof.
  unfold close. intros H. repeat split.
  - destruct a; try reflexivity. discriminate H.
  - destruct b; try reflexivity.
    rewrite sub_nan_r in H. discriminate H.
  - destruct rtol; try reflexivity.
    change (F64.mul S754_nan (F64.abs b)) with F64.nan in H.
    rewrite add_nan_r, leb_nan_r in H. discriminate H.
  - destruct atol; try reflexivity.
    change (F64.add S754_nan (F64.mul rtol (F64.abs b))) with F64.nan in H.
    rewrite leb_nan_r in H. discriminate H.
Qed.

Lemma X14_witness :
  close F64.one F64.one DEFAULT_RTOL DEFAULT_ATOL = true
  /\ F64.isnan F64.one = false /\ F64.isnan F64.one = false
  /\ F64.isnan DEFAULT_RTOL = false /\ F64.isnan DEFAULT_ATOL = false.
Proof.
  split; [reflexivity|].
  apply (@X14_close_rejects_nan F64.one F64.one DEFAULT_RTOL DEFAULT_ATOL).
  reflexivity.
Defined.

(** X15: whether [all_close] raises depends on the two shapes alone, and not
    on their order: [all_close(a, b, ...)] raises [ValueError] exactly when
    [all_close(b, a, ...)] does, whatever the tolerances and the flag of
    each call. *)
Theorem X15_all_close_raises_symmetrically
    a b rtol atol en rtol' atol' en' :
  all_close a b rtol atol en = Raise ValueError
  <-> all_close b a rtol' atol' en' = Raise ValueError.
Proof.
  rewrite !all_close_raises. unfold Np.broadcast_shapes.
  rewrite (broadcast_dims_comm (rev (Np.shape a))). reflexivity.
Qed.

(** X16: the scalar tests see their arguments through absolute values:
    [close(-a, -b, rtol, atol)] is [close(a, b, rtol, atol)] and
    [near_zero(-a, atol)] is [near_zero(a, atol)]. *)
Theorem X16_sign_symmetry a b rtol atol :
  close (SFopp a) (SFopp b) rtol atol = close a b rtol atol
  /\ near_zero (SFopp a) atol = near_zero a atol.
Proof.
  unfold close, near_zero. rewrite abs_sub_opp, !abs_opp. split; reflexivity.
Qed.

(** X17: a zero period does not make [all_near_zero_mod] raise, as it makes
    [near_zero_mod]: every element folds to NaN, and the result is [False]
    for a well-shaped array with an element, [True] for an empty one. *)
Theorem X17_all_near_zero_mod_zero_period a p rtol atol en :
  Spec.well_shaped a -> F64.eqb p F64.zero = true ->
  all_near_zero_mod a p rtol atol en
  = Ok (match Np.data a with [] => true | _ :: _ => false end)
  /\ forall x, near_zero_mod x p atol = Raise ZeroDivisionError.
Proof.
  intros W Hp. split.
  - rewrite all_near_zero_mod_unfold.
    destruct (all_close_zeros
                (Np.map_array (fun v => Spec.fold_np v p) a) rtol atol)
      as (l & H & Hl).
    rewrite (H en), Hl.
    + simpl. destruct (Np.data a) as [|v d]; simpl; auto.
      rewrite fold_np_zero_period by exact Hp. reflexivity.
    + unfold Spec.well_shaped in *. simpl. rewrite length_map. exact W.
  - intros x. unfold near_zero_mod. rewrite float_div_two. simpl.
    unfold Py.float_rem. rewrite Hp. reflexivity.
Qed.

Lemma X17_witness :
  Spec.well_shaped (vec [F64.one]) /\ F64.eqb F64.zero F64.zero = true
  /\ all_near_zero_mod (vec [F64.one]) F64.zero DEFAULT_RTOL DEFAULT_ATOL
       false = Ok false.
Proof.
  split; [reflexivity|]. split; [reflexivity|].
  apply (@X17_all_near_zero_mod_zero_period (vec [F64.one]) F64.zero
           DEFAULT_RTOL DEFAULT_ATOL false); reflexivity.
Defined.

(** X18: the array method and the scalar method of one instance agree
    element by element: for a well-shaped array and an instance with a
    finite [rtol], [self.all_near_zero(a)] is true exactly when every
    element is finite and [self.near_zero] holds of it; the stored [rtol]
    and [equal_nan] do not matter. *)
Theorem X18_method_all_near_zero_elementwise self a :
  Spec.well_shaped a -> F64.isfinite (Tolerance.rtol self) = true ->
  Tolerance.all_near_zero self a
  = Ok (forallb (fun v => F64.isfinite v && Tolerance.near_zero self v)
          (Np.data a)).
Proof.
  intros W Fr. unfold Tolerance.all_near_zero, Tolerance.near_zero.
  unfold all_near_zero.
  destruct (all_close_zeros a (Tolerance.rtol self) (Tolerance.atol self))
    as (l & H & Hl).
  rewrite (H (Tolerance.equal_nan self)), (Hl W). f_equal.
  apply forallb_elem_near_zero, Fr.
Qed.

Lemma X18_witness :
  Spec.well_shaped (vec [F64.zero; F64.nan])
  /\ F64.isfinite (Tolerance.rtol Tolerance.DEFAULT) = true
  /\ Tolerance.all_near_zero Tolerance.DEFAULT (vec [F64.zero; F64.nan])
     = Ok (forallb (fun v => F64.isfinite v
                             && Tolerance.near_zero Tolerance.DEFAULT v)
             [F64.zero; F64.nan]).
Proof.
  split; [reflexivity|]. split; [reflexivity|].
  apply (@X18_method_all_near_zero_elementwise Tolerance.DEFAULT
           (vec [F64.zero; F64.nan])); reflexivity.
Defined.

(** X19: for a non-zero period and an instance with finite tolerances, the
    array method on a scalar returns what the scalar method returns:
    [self.all_near_zero_mod(x, p)] is [self.near_zero_mod(x, p)]. *)
Theorem X19_method_near_zero_mod_agree self x p :
  F64.eqb p F64.zero = false ->
  F64.isfinite (Tolerance.rtol self) = true ->
  F64.isfinite (Tolerance.atol self) = true ->
  Tolerance.all_near_zero_mod self (Spec.scalar x) p
  = Tolerance.near_zero_mod self x p.
Proof.
  intros Hp Fr Fa.
  unfold Tolerance.all_near_zero_mod, Tolerance.near_zero_mod.
  rewrite all_near_zero_mod_unfold, near_zero_mod_ok by exact Hp.
  destruct (all_close_zeros
              (Np.map_array (fun v => Spec.fold_np v p) (Spec.scalar x))
              (Tolerance.rtol self) (Tolerance.atol self)) as (l & H & Hl).
  rewrite (H (Tolerance.equal_nan self)), Hl by reflexivity. simpl.
  rewrite andb_true_r, within_tol_zero by exact Fr.
  rewrite fold_np_py by exact Hp. f_equal.
  destruct (near_zero (Spec.fold_py x p) (Tolerance.atol self)) eqn:N.
  - rewrite (near_zero_isfinite _ _ Fa N). reflexivity.
  - apply andb_false_r.
Qed.

Lemma X19_witness :
  F64.eqb (F64.of_Z 4) F64.zero = false
  /\ F64.isfinite (Tolerance.rtol Tolerance.DEFAULT) = true
  /\ F64.isfinite (Tolerance.atol Tolerance.DEFAULT) = true
  /\ Tolerance.all_near_zero_mod Tolerance.DEFAULT
       (Spec.scalar (F64.of_Z 3)) (F64.of_Z 4)
     = Tolerance.near_zero_mod Tolerance.DEFAULT (F64.of_Z 3) (F64.of_Z 4).
Proof.
  split; [reflexivity|]. split; [reflexivity|]. split; [reflexivity|].
  apply (@X19_method_near_zero_mod_agree Tolerance.DEFAULT (F64.of_Z 3)
           (F64.of_Z 4)); reflexivity.
Defined.

(** X20: with [equal_nan] set, every array is close to itself, NaN elements
    included, for all tolerances [rtol >= 0], finite, and [atol >= 0]. *)
Theorem X20_all_close_reflexive_with_equal_nan a rtol atol :
  Spec.nonneg rtol = true -> F64.isfinite rtol = true ->
  Spec.nonneg atol = true ->
  all_close a a rtol atol true = Ok true.
Proof.
  intros Hr Fr Ha.
  pose proof (all_close_positions a a rtol atol true) as H.
  unfold Spec.corresponding in H. rewrite broadcast_shapes_refl in H.
  destruct H as (r & -> & Hi). f_equal. apply Hi.
  apply Forall_forall. intros [u v] Hp.
  apply combine_diag in Hp. destruct Hp as [<- _].
  destruct (F64.isnan u) eqn:N.
  - apply isnan_eq in N. subst u. right; right. auto.
  - apply position_close_diag; assumption.
Qed.

Lemma X20_witness :
  Spec.nonneg DEFAULT_RTOL = true /\ F64.isfinite DEFAULT_RTOL = true
  /\ Spec.nonneg DEFAULT_ATOL = true
  /\ all_close (vec [F64.nan; F64.inf]) (vec [F64.nan; F64.inf])
       DEFAULT_RTOL DEFAULT_ATOL true = Ok true.
Proof.
  split; [reflexivity|]. split; [reflexivity|]. split; [reflexivity|].
  apply (@X20_all_close_reflexive_with_equal_nan (vec [F64.nan; F64.inf])
           DEFAULT_RTOL DEFAULT_ATOL); reflexivity.
Defined.

(** ** The interval of the folded value

    The modular tests fold [v] as [((v + p/2) % p) - p/2].  Each operation
    is followed on the integers the floats stand for: the sum and the
    difference are roundings, the remainder is exact, the half is exact but
    for an odd multiple of the least positive float. *)

Local Open Scope Z_scope.

(** *** Exponents, digits and the order of floats *)

Lemma fexp_eq x : fexp F64.prec F64.emax x = Z.max (x - 53) emin.
Proof. reflexivity. Qed.

Lemma pow2_pos k : 0 <= k -> 0 < 2 ^ k.
Proof. intros; apply Z.pow_pos_nonneg; lia. Qed.

Arguments pow2_pos : clear implicits.

Lemma pow2_split a b : 0 <= a -> 0 <= b -> 2 ^ (a + b) = 2 ^ a * 2 ^ b.
Proof. intros; apply Z.pow_add_r; assumption. Qed.

Lemma pow2_le a b : 0 <= a <= b -> 2 ^ a <= 2 ^ b.
Proof. intros; apply Z.pow_le_mono_r; lia. Qed.

Lemma pow2_lt a b : 0 <= a < b -> 2 ^ a < 2 ^ b.
Proof. intros; apply Z.pow_lt_mono_r; lia. Qed.

Lemma digits2_pos_upper m : Zpos m < 2 ^ Zpos (digits2_pos m).
Proof.
  induction m as [m IH|m IH|]; simpl digits2_pos.
  - rewrite Pos2Z.inj_succ, Z.pow_succ_r by lia. lia.
  - rewrite Pos2Z.inj_succ, Z.pow_succ_r by lia. lia.
  - simpl. lia.
Qed.

(** The number of digits is the one exponent that brackets the number. *)
Lemma digits2_pos_unique m k :
  2 ^ (k - 1) <= Zpos m < 2 ^ k -> Zpos (digits2_pos m) = k.
Proof.
  intros [L U].
  pose proof (digits2_pos_lower m) as L'.
  pose proof (digits2_pos_upper m) as U'.
  assert (0 < k).
  { destruct (Z_lt_le_dec 0 k); auto.
    assert (2 ^ k <= 2 ^ 0) by (destruct (Z_lt_le_dec k 0);
      [rewrite Z.pow_neg_r by lia; simpl; lia | apply pow2_le; lia]).
    simpl in *. lia. }
  destruct (Z_lt_le_dec (Zpos (digits2_pos m)) k) as [C|C].
  - assert (2 ^ Zpos (digits2_pos m) <= 2 ^ (k - 1)) by (apply pow2_le; lia).
    lia.
  - destruct (Z_lt_le_dec k (Zpos (digits2_pos m))) as [C'|C']; [|lia].
    assert (2 ^ k <= 2 ^ (Zpos (digits2_pos m) - 1)) by (apply pow2_le; lia).
    lia.
Qed.

Lemma valid_bounds s m e :
  Spec.valid (S754_finite s m e) ->
  emin <= e <= 971
  /\ Zpos (digits2_pos m) <= 53
  /\ (emin < e -> Zpos (digits2_pos m) = 53).
Proof.
  unfold Spec.valid, valid_binary, bounded, canonical_mantissa.
  intros H. apply andb_prop in H. destruct H as [H1 H2].
  apply Z.eqb_eq in H1. apply Z.leb_le in H2.
  rewrite fexp_eq in H1. unfold emin in *.
  change (F64.emax - F64.prec) with 971 in H2. lia.
Qed.

Lemma valid_mantissa s m e :
  Spec.valid (S754_finite s m e) ->
  Zpos m < 2 ^ 53 /\ (emin < e -> 2 ^ 52 <= Zpos m).
Proof.
  intros V. destruct (valid_bounds V) as (_ & D & D').
  pose proof (digits2_pos_upper m) as U.
  pose proof (digits2_pos_lower m) as L.
  split.
  - assert (2 ^ Zpos (digits2_pos m) <= 2 ^ 53) by (apply pow2_le; lia). lia.
  - intros E. rewrite (D' E) in L. exact L.
Qed.

Lemma valid_intro s m e :
  emin <= e <= 971 ->
  fexp F64.prec F64.emax (Zpos (digits2_pos m) + e) = e ->
  Spec.valid (S754_finite s m e).
Proof.
  intros He Hf. unfold Spec.valid, valid_binary, bounded, canonical_mantissa.
  rewrite Hf, Z.eqb_refl. simpl. apply Z.leb_le.
  change (F64.emax - F64.prec) with 971. lia.
Qed.

(** The value of a positive valid float, in units of [2^emin]. *)
Lemma scaled_pos_lt m1 e1 m2 e2 :
  Spec.valid (S754_finite false m1 e1) -> Spec.valid (S754_finite false m2 e2) ->
  e1 < e2 -> Zpos m1 * 2 ^ (e1 - emin) < Zpos m2 * 2 ^ (e2 - emin).
Proof.
  intros V1 V2 E.
  destruct (valid_bounds V1) as (B1 & _).
  destruct (valid_bounds V2) as (B2 & _).
  destruct (valid_mantissa V1) as (U1 & _).
  destruct (valid_mantissa V2) as (_ & L2).
  specialize (L2 ltac:(lia)).
  replace (e2 - emin) with ((e2 - e1 - 1) + (1 + (e1 - emin))) by lia.
  rewrite !pow2_split by lia.
  pose proof (pow2_pos (e1 - emin) ltac:(lia)) as P1.
  pose proof (pow2_pos (e2 - e1 - 1) ltac:(lia)) as P2.
  change (2 ^ 1) with 2. change (2 ^ 53) with (2 * 2 ^ 52) in U1.
  set (A := 2 ^ (e1 - emin)) in *. set (B := 2 ^ (e2 - e1 - 1)) in *.
  set (C := 2 ^ 52) in *.
  assert (Zpos m1 * A < 2 * C * A) by nia.
  assert (C * (B * (2 * A)) <= Zpos m2 * (B * (2 * A))) by nia.
  assert (2 * C * A <= C * (B * (2 * A))) by nia.
  lia.
Qed.

Lemma compare_scaled x y :
  Spec.valid x -> Spec.valid y ->
  F64.isfinite x = true -> F64.isfinite y = true ->
  SFcompare x y = Some (scaled x ?= scaled y).
Proof.
  intros Vx Vy Fx Fy.
  destruct x as [sx|sx| |sx mx ex]; try discriminate Fx;
    destruct y as [sy|sy| |sy my ey]; try discriminate Fy;
    unfold scaled, cond_Zopp, SFcompare.
  - reflexivity.
  - destruct (valid_bounds Vy) as (B & _).
    pose proof (pow2_pos (ey - emin) ltac:(lia)).
    destruct sy; f_equal; symmetry;
      [apply Z.compare_gt_iff | apply Z.compare_lt_iff]; nia.
  - destruct (valid_bounds Vx) as (B & _).
    pose proof (pow2_pos (ex - emin) ltac:(lia)).
    destruct sx; f_equal; symmetry;
      [apply Z.compare_lt_iff | apply Z.compare_gt_iff]; nia.
  - destruct (valid_bounds Vx) as (Bx & _).
    destruct (valid_bounds Vy) as (By & _).
    pose proof (pow2_pos (ex - emin) ltac:(lia)) as Px.
    pose proof (pow2_pos (ey - emin) ltac:(lia)) as Py.
    assert (Vx' : Spec.valid (S754_finite false mx ex)) by exact Vx.
    assert (Vy' : Spec.valid (S754_finite false my ey)) by exact Vy.
    change (Pos.compare_cont Eq mx my) with (Pos.compare mx my).
    destruct sx, sy; f_equal; symmetry.
    + (* both negative *)
      destruct (Z.compare_spec ex ey) as [E|E|E].
      * subst ey. destruct (Pos.compare_spec mx my) as [M|M|M]; cbn [CompOpp].
        -- subst. apply Z.compare_refl.
        -- apply Z.compare_gt_iff. apply Pos2Z.pos_lt_pos in M. nia.
        -- apply Z.compare_lt_iff. apply Pos2Z.pos_lt_pos in M. nia.
      * apply Z.compare_gt_iff.
        pose proof (scaled_pos_lt Vx' Vy' E). lia.
      * apply Z.compare_lt_iff.
        pose proof (scaled_pos_lt Vy' Vx' E). lia.
    + apply Z.compare_lt_iff. nia.
    + apply Z.compare_gt_iff. nia.
    + destruct (Z.compare_spec ex ey) as [E|E|E].
      * subst ey. destruct (Pos.compare_spec mx my) as [M|M|M]; cbn [CompOpp].
        -- subst. apply Z.compare_refl.
        -- apply Z.compare_lt_iff. apply Pos2Z.pos_lt_pos in M. nia.
        -- apply Z.compare_gt_iff. apply Pos2Z.pos_lt_pos in M. nia.
      * apply Z.compare_lt_iff. exact (scaled_pos_lt Vx' Vy' E).
      * apply Z.compare_gt_iff. exact (scaled_pos_lt Vy' Vx' E).
Qed.

Lemma le_scaled x y :
  Spec.valid x -> Spec.valid y ->
  F64.isfinite x = true -> F64.isfinite y = true ->
  (Spec.le x y <-> scaled x <= scaled y).
Proof.
  intros Vx Vy Fx Fy. unfold Spec.le.
  rewrite (compare_scaled Vx Vy Fx Fy).
  destruct (Z.compare_spec (scaled x) (scaled y)) as [C|C|C]; split;
    intros K; try lia; auto; destruct K; discriminate.
Qed.

(** *** Right shifts and rounding to nearest *)

Lemma iter_pos_nat {A : Type} (f : A -> A) p : forall x,
  iter_pos f p x = Nat.iter (Pos.to_nat p) f x.
Proof.
  induction p as [p IH|p IH|]; intros x; simpl iter_pos.
  - rewrite !IH, Pos2Nat.inj_xI.
    replace (S (2 * Pos.to_nat p))%nat
      with (Pos.to_nat p + (Pos.to_nat p + 1))%nat by lia.
    rewrite !Nat.iter_add. reflexivity.
  - rewrite !IH, Pos2Nat.inj_xO.
    replace (2 * Pos.to_nat p)%nat
      with (Pos.to_nat p + Pos.to_nat p)%nat by lia.
    rewrite Nat.iter_add. reflexivity.
  - reflexivity.
Qed.

Lemma shr_1_lost mrs :
  0 <= shr_m mrs -> lostb mrs = false -> shr_m mrs mod 2 = 0 ->
  lostb (shr_1 mrs) = false.
Proof.
  destruct mrs as [m r s]; unfold lostb; simpl. intros H L M.
  rewrite L.
  destruct m as [|[p|p|]|p]; try reflexivity; try lia.
  - exfalso. rewrite Pos2Z.inj_xI in M.
    rewrite Z.add_comm, Z.mul_comm, Z.mod_add in M by lia. discriminate.
  - discriminate.
Qed.

Lemma iter_shr_1_nat k : forall mrs,
  0 <= shr_m mrs ->
  0 <= shr_m (Nat.iter k shr_1 mrs)
  /\ shr_m (Nat.iter k shr_1 mrs) = shr_m mrs / 2 ^ Z.of_nat k
  /\ (lostb mrs = false -> shr_m mrs mod 2 ^ Z.of_nat k = 0 ->
      lostb (Nat.iter k shr_1 mrs) = false).
Proof.
  induction k as [|k IH]; intros mrs H.
  - simpl. rewrite Z.div_1_r. auto.
  - destruct (IH mrs H) as (N & D & L).
    change (Nat.iter (S k) shr_1 mrs) with (shr_1 (Nat.iter k shr_1 mrs)).
    assert (P : 0 < 2 ^ Z.of_nat k) by (apply pow2_pos; lia).
    assert (E : 2 ^ Z.of_nat (S k) = 2 ^ Z.of_nat k * 2).
    { rewrite Nat2Z.inj_succ, Z.pow_succ_r by lia. ring. }
    split; [apply shr_1_nonneg, N|]. split.
    + rewrite shr_1_div2 by exact N. rewrite D, Z.div_div by lia.
      rewrite E. reflexivity.
    + intros L0 M. rewrite E in M.
      apply Z.mod_divide in M; [|lia]. destruct M as [c M].
      apply shr_1_lost; auto.
      * apply L; auto. apply Z.mod_divide; [lia|].
        exists (c * 2). rewrite M. ring.
      * rewrite D, M.
        replace (c * (2 ^ Z.of_nat k * 2)) with (c * 2 * 2 ^ Z.of_nat k)
          by ring.
        rewrite Z.div_mul by lia. apply Z.mod_mul. lia.
Qed.

(** Shifting a positive mantissa out by [n > 0] bits. *)
Lemma shr_spec m n e :
  0 < n ->
  let r := shr (Build_shr_record (Zpos m) false false) e n in
  snd r = e + n
  /\ shr_m (fst r) = Zpos m / 2 ^ n
  /\ (Zpos m mod 2 ^ n = 0 -> lostb (fst r) = false).
Proof.
  intros Hn. destruct n as [|p|p]; try lia. simpl.
  rewrite iter_pos_nat.
  destruct (@iter_shr_1_nat (Pos.to_nat p)
              (Build_shr_record (Zpos m) false false)) as (_ & D & L);
    [simpl; lia|].
  rewrite positive_nat_Z in D, L. simpl in D, L.
  split; [reflexivity|]. split; [exact D|]. intros M. apply L; auto.
Qed.

Lemma rne_cases mrs :
  let m' := round_nearest_even (shr_m mrs) (loc_of_shr_record mrs) in
  (m' = shr_m mrs \/ (m' = shr_m mrs + 1 /\ lostb mrs = true)).
Proof.
  destruct mrs as [m [|] [|]]; unfold lostb; simpl; auto.
  destruct (Z.even m); auto.
Qed.

(** No shift: the mantissa is kept as it is. *)
Lemma round_aux_exact s m e :
  fexp F64.prec F64.emax (Zpos (digits2_pos m) + e) = e ->
  binary_round_aux F64.prec F64.emax s (Zpos m) e loc_Exact
  = if e <=? 971 then S754_finite s m e else S754_infinity s.
Proof.
  intros H. unfold binary_round_aux, shr_fexp.
  cbn [Zdigits2 shr_record_of_loc]. rewrite H, Z.sub_diag.
  cbn [shr shr_m loc_of_shr_record round_nearest_even Zdigits2
       shr_record_of_loc].
  rewrite H, Z.sub_diag. cbn [shr shr_m]. reflexivity.
Qed.

Lemma div_pow2_bounds m d n :
  2 ^ (d - 1) <= m < 2 ^ d -> 0 <= n < d ->
  2 ^ (d - n - 1) <= m / 2 ^ n < 2 ^ (d - n).
Proof.
  intros [L U] Hn.
  assert (P : 0 < 2 ^ n) by (apply pow2_pos; lia).
  split.
  - apply Z.div_le_lower_bound; [lia|].
    rewrite <- pow2_split by lia. replace (n + (d - n - 1)) with (d - 1) by lia.
    exact L.
  - apply Z.div_lt_upper_bound; [lia|].
    rewrite <- pow2_split by lia. replace (n + (d - n)) with d by lia.
    exact U.
Qed.

(** A shift by [n = digits - 53 > 0] bits: the result is one of the two
    neighbours of the value, the lower one when the value is one. *)
Lemma round_aux_inexact s m e :
  emin <= e -> 53 < Zpos (digits2_pos m) ->
  let n := Zpos (digits2_pos m) - 53 in
  let lo := Zpos m / 2 ^ n in
  exists m3 E3,
    binary_round_aux F64.prec F64.emax s (Zpos m) e loc_Exact
    = (if E3 <=? 971 then S754_finite s m3 E3 else S754_infinity s)
    /\ e + n <= E3
    /\ fexp F64.prec F64.emax (Zpos (digits2_pos m3) + E3) = E3
    /\ (Zpos m3 * 2 ^ (E3 - (e + n)) = lo
        \/ (Zpos m3 * 2 ^ (E3 - (e + n)) = lo + 1
            /\ Zpos m mod 2 ^ n <> 0)).
Proof.
  intros He Hd n lo.
  pose proof (digits2_pos_lower m) as DL.
  pose proof (digits2_pos_upper m) as DU.
  destruct (@div_pow2_bounds (Zpos m) (Zpos (digits2_pos m)) n) as [LL LU];
    [lia|unfold n; lia|].
  replace (Zpos (digits2_pos m) - n - 1) with 52 in LL by (unfold n; lia).
  replace (Zpos (digits2_pos m) - n) with 53 in LU by (unfold n; lia).
  fold lo in LL, LU.
  unfold binary_round_aux, shr_fexp. cbn [Zdigits2 shr_record_of_loc].
  assert (F1 : fexp F64.prec F64.emax (Zpos (digits2_pos m) + e) - e = n).
  { rewrite fexp_eq. unfold n, emin in *. lia. }
  rewrite F1.
  destruct (@shr_spec m n e ltac:(unfold n; lia)) as (S1 & S2 & S3).
  destruct (shr (Build_shr_record (Zpos m) false false) e n) as [mrs' e'].
  simpl in S1, S2, S3. subst e'. fold lo in S2.
  pose proof (rne_cases mrs') as R. cbv zeta in R.
  set (m2 := round_nearest_even (shr_m mrs') (loc_of_shr_record mrs')) in *.
  rewrite S2 in R.
  assert (R' : m2 = lo \/ (m2 = lo + 1 /\ Zpos m mod 2 ^ n <> 0)).
  { destruct R as [R|[R L]]; [left; exact R|right; split; [exact R|]].
    intros M. rewrite (S3 M) in L. discriminate. }
  clear R S3.
  assert (P52 : 0 < 2 ^ 52) by (apply pow2_pos; lia).
  destruct m2 as [|q|q] eqn:Em2; try lia.
  destruct (Z.eq_dec (Zpos q) (2 ^ 53)) as [C|C].
  - (* the carry: one more shift *)
    assert (Dq : Zpos (digits2_pos q) = 54).
    { apply digits2_pos_unique. rewrite C.
      change (54 - 1) with 53. split; [lia|]. apply pow2_lt; lia. }
    cbn [Zdigits2 shr_record_of_loc]. rewrite Dq.
    assert (F2 : fexp F64.prec F64.emax (54 + (e + n)) - (e + n) = 1).
    { rewrite fexp_eq. unfold n, emin in *. lia. }
    rewrite F2.
    destruct (@shr_spec q 1 (e + n) ltac:(lia)) as (T1 & T2 & _).
    destruct (shr (Build_shr_record (Zpos q) false false) (e + n) 1)
      as [mrs'' e''].
    cbn [fst snd] in T1, T2. subst e''.
    assert (T3 : shr_m mrs'' = Zpos 4503599627370496)
      by (rewrite T2, C; reflexivity).
    rewrite T3.
    exists 4503599627370496%positive, (e + n + 1).
    split; [reflexivity|]. split; [lia|].
    split; [rewrite fexp_eq; cbn [digits2_pos Pos.succ]; unfold emin in *; lia|].
    replace (e + n + 1 - (e + n)) with 1 by lia.
    change (Zpos 4503599627370496 * 2 ^ 1) with (2 ^ 53). rewrite <- C.
    destruct R' as [R'|R']; [left|right]; exact R'.
  - (* no carry *)
    assert (Dq : Zpos (digits2_pos q) = 53).
    { apply digits2_pos_unique. change (53 - 1) with 52. lia. }
    cbn [Zdigits2 shr_record_of_loc]. rewrite Dq.
    assert (F2 : fexp F64.prec F64.emax (53 + (e + n)) - (e + n) = 0).
    { rewrite fexp_eq. unfold n, emin in *. lia. }
    rewrite F2. cbn [shr shr_m].
    exists q, (e + n). split; [reflexivity|]. split; [lia|].
    split; [rewrite Dq, fexp_eq; unfold emin in *; lia|].
    rewrite Z.sub_diag. change (2 ^ 0) with 1. rewrite Z.mul_1_r.
    exact R'.
Qed.

(** *** Rounding a product of a mantissa and a power of two *)

Lemma iter_xO_value m d : Zpos (Pos.iter xO m d) = Zpos m * 2 ^ Zpos d.
Proof.
  induction d as [|d IH] using Pos.peano_ind.
  - simpl. lia.
  - rewrite Pos.iter_succ, Pos2Z.inj_xO, IH, Pos2Z.inj_succ.
    rewrite Z.pow_succ_r by lia. ring.
Qed.

Lemma shl_align_spec m e e' :
  snd (shl_align m e e') = Z.min e e'
  /\ Zpos (fst (shl_align m e e'))
     = Zpos m * 2 ^ (e - snd (shl_align m e e'))
  /\ Zpos (digits2_pos (fst (shl_align m e e')))
     = Zpos (digits2_pos m) + (e - snd (shl_align m e e')).
Proof.
  unfold shl_align. destruct (e' - e) as [|d|d] eqn:E; cbn [fst snd].
  - split; [lia|]. rewrite Z.sub_diag. split; [simpl; lia|lia].
  - split; [lia|]. rewrite Z.sub_diag. split; [simpl; lia|lia].
  - split; [lia|]. replace (e - e') with (Zpos d) by lia.
    split; [apply iter_xO_value|apply digits2_pos_shift].
Qed.

(** A mantissa of at most 53 digits is rounded to itself. *)
Lemma binary_round_small s m e :
  emin <= e <= 971 -> Zpos (digits2_pos m) <= 53 ->
  exists mz F,
    binary_round F64.prec F64.emax s m e = S754_finite s mz F
    /\ Spec.valid (S754_finite s mz F)
    /\ Zpos mz * 2 ^ (F - emin) = Zpos m * 2 ^ (e - emin).
Proof.
  intros He Hd. unfold binary_round.
  set (F := fexp F64.prec F64.emax (Zpos (digits2_pos m) + e)).
  assert (HF : F = Z.max (Zpos (digits2_pos m) + e - 53) emin)
    by apply fexp_eq.
  destruct (shl_align_spec m e F) as (A1 & A2 & A3).
  destruct (shl_align m e F) as [mz ez]. cbn [fst snd] in A1, A2, A3.
  assert (Hez : ez = F) by lia. clear A1. subst ez.
  assert (C : fexp F64.prec F64.emax (Zpos (digits2_pos mz) + F) = F).
  { rewrite A3. replace (Zpos (digits2_pos m) + (e - F) + F)
      with (Zpos (digits2_pos m) + e) by lia. reflexivity. }
  rewrite (round_aux_exact s mz C).
  assert (L : (F <=? 971) = true) by (apply Z.leb_le; lia).
  rewrite L. exists mz, F. split; [reflexivity|].
  split; [apply valid_intro; [unfold emin in *; lia|exact C]|].
  rewrite A2, <- Z.mul_assoc, <- pow2_split by (unfold emin in *; lia).
  f_equal. f_equal. lia.
Qed.

Lemma binary_round_large s m e :
  emin <= e -> 53 < Zpos (digits2_pos m) ->
  binary_round F64.prec F64.emax s m e
  = binary_round_aux F64.prec F64.emax s (Zpos m) e loc_Exact.
Proof.
  intros He Hd. unfold binary_round, shl_align.
  rewrite fexp_eq.
  destruct (Z.max (Zpos (digits2_pos m) + e - 53) emin - e) as [|d|d] eqn:E;
    try reflexivity.
  unfold emin in *. lia.
Qed.

Lemma scaled_max y :
  Spec.valid y -> F64.isfinite y = true ->
  scaled y < 2 ^ 53 * 2 ^ (971 - emin).
Proof.
  intros V F.
  assert (Q : 0 < 2 ^ 53) by (apply pow2_pos; lia).
  assert (Q' : 0 < 2 ^ (971 - emin)) by (apply pow2_pos; unfold emin; lia).
  destruct y as [s|s| |s m e]; try discriminate F; cbn [scaled].
  - nia.
  - destruct (valid_bounds V) as (B & _).
    destruct (valid_mantissa V) as (U & _).
    pose proof (pow2_pos (e - emin) ltac:(lia)) as P.
    assert (2 ^ (e - emin) <= 2 ^ (971 - emin)) by (apply pow2_le; lia).
    destruct s; cbn [cond_Zopp]; nia.
Qed.

(** Between a 53-digit multiple of [2^(E - emin)] and the next one there is
    no float. *)
Lemma gap y lo E :
  Spec.valid y -> F64.isfinite y = true -> emin < E -> 2 ^ 52 <= lo ->
  lo * 2 ^ (E - emin) < scaled y -> (lo + 1) * 2 ^ (E - emin) <= scaled y.
Proof.
  intros V F HE Hlo H.
  assert (PU : 0 < 2 ^ (E - emin)) by (apply pow2_pos; lia).
  assert (P52 : 0 < 2 ^ 52) by (apply pow2_pos; lia).
  destruct y as [s|s| |s m e]; try discriminate F; cbn [scaled] in *;
    try nia.
  destruct (valid_bounds V) as (B & _).
  destruct (valid_mantissa V) as (U & _).
  pose proof (pow2_pos (e - emin) ltac:(lia)) as P.
  destruct s; cbn [cond_Zopp] in *; [nia|].
  destruct (Z_lt_le_dec e E) as [C|C].
  - exfalso.
    assert (2 * 2 ^ (e - emin) <= 2 ^ (E - emin)).
    { replace (E - emin) with (1 + (e - emin) + (E - e - 1)) by lia.
      rewrite !pow2_split by lia. change (2 ^ 1) with 2.
      pose proof (pow2_pos (E - e - 1) ltac:(lia)). nia. }
    change (2 ^ 53) with (2 * 2 ^ 52) in U. nia.
  - replace (e - emin) with ((e - E) + (E - emin)) in * by lia.
    rewrite pow2_split in * by lia.
    pose proof (pow2_pos (e - E) ltac:(lia)) as PE.
    set (A := 2 ^ (e - E)) in *. set (B' := 2 ^ (E - emin)) in *.
    assert (lo < Zpos m * A) by nia. nia.
Qed.

Lemma le_inf_r y : F64.isfinite y = true -> Spec.le y (S754_infinity false).
Proof. destruct y as [s|s| |[|] m e]; try discriminate; left; reflexivity. Qed.

Lemma le_inf_l y : F64.isfinite y = true -> Spec.le (S754_infinity true) y.
Proof. destruct y as [s|s| |[|] m e]; try discriminate; left; reflexivity. Qed.

Lemma rounds_exact W r :
  Spec.valid r -> F64.isfinite r = true -> scaled r = W -> rounds W r.
Proof.
  intros V F E. split; [exact V|]. intros y Vy Fy. subst W.
  split; intros H; apply le_scaled; auto.
Qed.

Lemma binary_round_rounds m e :
  emin <= e <= 971 ->
  rounds (Zpos m * 2 ^ (e - emin)) (binary_round F64.prec F64.emax false m e).
Proof.
  intros He.
  destruct (Z_le_gt_dec (Zpos (digits2_pos m)) 53) as [Hd|Hd].
  - destruct (binary_round_small false m He Hd) as (mz & F & -> & V & E).
    apply rounds_exact; auto.
  - rewrite binary_round_large by lia.
    destruct (@round_aux_inexact false m e ltac:(lia) ltac:(lia))
      as (m3 & E3 & -> & HE3 & C3 & Hv).
    set (n := Zpos (digits2_pos m) - 53) in *.
    set (lo := Zpos m / 2 ^ n) in *.
    pose proof (digits2_pos_lower m) as DL.
    pose proof (digits2_pos_upper m) as DU.
    destruct (@div_pow2_bounds (Zpos m) (Zpos (digits2_pos m)) n) as [LL LU];
      [lia|unfold n; lia|].
    replace (Zpos (digits2_pos m) - n - 1) with 52 in LL by (unfold n; lia).
    fold lo in LL. clear LU.
    assert (Pn : 0 < 2 ^ n) by (apply pow2_pos; unfold n; lia).
    assert (Pe : 0 < 2 ^ (e - emin)) by (apply pow2_pos; lia).
    set (U := 2 ^ (e + n - emin)).
    assert (EU : U = 2 ^ n * 2 ^ (e - emin)).
    { unfold U. replace (e + n - emin) with (n + (e - emin)) by lia.
      apply pow2_split; unfold n; lia. }
    pose proof (Z.div_mod (Zpos m) (2 ^ n) ltac:(lia)) as DM. fold lo in DM.
    pose proof (Z.mod_pos_bound (Zpos m) (2 ^ n) Pn) as MB.
    set (rem := Zpos m mod 2 ^ n) in *.
    set (W := Zpos m * 2 ^ (e - emin)).
    assert (WL : lo * U <= W) by (unfold W; rewrite EU; nia).
    assert (WU : W < (lo + 1) * U) by (unfold W; rewrite EU; nia).
    assert (WS : rem <> 0 -> lo * U < W) by (unfold W; rewrite EU; nia).
    (* the value of the result *)
    assert (D3 : Zpos (digits2_pos m3) = 53).
    { rewrite fexp_eq in C3. unfold emin, n in *. lia. }
    pose proof (digits2_pos_lower m3) as L3. rewrite D3 in L3.
    change (53 - 1) with 52 in L3.
    set (V3 := Zpos m3 * 2 ^ (E3 - emin)).
    assert (EV3 : V3 = Zpos m3 * 2 ^ (E3 - (e + n)) * U).
    { unfold V3, U. rewrite <- Z.mul_assoc, <- pow2_split by lia.
      do 2 f_equal. lia. }
    assert (HV3 : V3 = lo * U \/ (V3 = (lo + 1) * U /\ lo * U < W)).
    { rewrite EV3. destruct Hv as [->|[-> R]]; auto. }
    clear Hv EV3.
    assert (G : forall y, Spec.valid y -> F64.isfinite y = true ->
                  lo * U < scaled y -> (lo + 1) * U <= scaled y).
    { intros y Vy Fy. apply gap; auto. unfold n in *. lia. }
    destruct (Z.leb_spec E3 971) as [B3|B3].
    + assert (Vr : Spec.valid (S754_finite false m3 E3))
        by (apply valid_intro; [unfold n in *; lia|exact C3]).
      split; [exact Vr|]. intros y Vy Fy.
      rewrite !(le_scaled) by (auto; reflexivity).
      change (scaled (S754_finite false m3 E3)) with V3.
      split; intros H.
      * destruct HV3 as [->|[-> S3]]; [lia|]. apply G; auto. lia.
      * destruct (Z_le_gt_dec (scaled y) (lo * U)) as [K|K]; [lia|].
        pose proof (G y Vy Fy ltac:(lia)). lia.
    + split; [reflexivity|]. intros y Vy Fy.
      pose proof (scaled_max Vy Fy) as MX.
      assert (BIG : 2 ^ 53 * 2 ^ (971 - emin) <= V3).
      { unfold V3. change (2 ^ 53) with (2 ^ 52 * 2 ^ 1).
        rewrite <- Z.mul_assoc, <- pow2_split by (unfold emin; lia).
        assert (2 ^ (1 + (971 - emin)) <= 2 ^ (E3 - emin))
          by (apply pow2_le; unfold emin; lia).
        pose proof (pow2_pos (1 + (971 - emin)) ltac:(unfold emin; lia)).
        nia. }
      split; intros H; [exfalso|apply le_inf_r, Fy].
      destruct HV3 as [E|[E S3]]; [lia|].
      pose proof (G y Vy Fy ltac:(lia)). lia.
Qed.

(** *** Signs, sums and differences *)

Lemma binary_round_opp m e :
  binary_round F64.prec F64.emax true m e
  = SFopp (binary_round F64.prec F64.emax false m e).
Proof.
  unfold binary_round. destruct (shl_align m e _) as [mz ez].
  unfold binary_round_aux.
  destruct (shr_fexp F64.prec F64.emax (Zpos mz) ez loc_Exact) as [mrs' e'].
  destruct (shr_fexp F64.prec F64.emax _ e' loc_Exact) as [mrs'' e''].
  destruct (shr_m mrs''); try reflexivity.
  destruct (_ <=? _); reflexivity.
Qed.

Lemma compare_opp a b : SFcompare (SFopp a) (SFopp b) = SFcompare b a.
Proof.
  destruct a as [sa|sa| |sa ma ea]; destruct b as [sb|sb| |sb mb eb];
    try (destruct sa; reflexivity); try (destruct sb; reflexivity);
    try (destruct sa, sb; reflexivity); try reflexivity.
  unfold SFopp, SFcompare.
  change (Pos.compare_cont Eq ma mb) with (Pos.compare ma mb).
  change (Pos.compare_cont Eq mb ma) with (Pos.compare mb ma).
  rewrite (Z.compare_antisym ea eb), (Pos.compare_antisym ma mb).
  destruct sa, sb; cbn [negb]; try reflexivity;
    destruct (ea ?= eb); cbn [CompOpp]; try reflexivity.
  destruct (ma ?= mb)%positive; reflexivity.
Qed.

Lemma le_opp a b : Spec.le (SFopp a) (SFopp b) <-> Spec.le b a.
Proof. unfold Spec.le. rewrite compare_opp. reflexivity. Qed.

Lemma opp_involutive a : SFopp (SFopp a) = a.
Proof. destruct a as [[|]|[|]| |[|] m e]; reflexivity. Qed.

Lemma valid_opp a : Spec.valid a -> Spec.valid (SFopp a).
Proof. destruct a; auto. Qed.

Lemma isfinite_opp a : F64.isfinite (SFopp a) = F64.isfinite a.
Proof. destruct a; reflexivity. Qed.

Lemma scaled_opp a : scaled (SFopp a) = - scaled a.
Proof.
  destruct a as [s|s| |s m e]; cbn [SFopp scaled]; try reflexivity.
  destruct s; cbn [negb cond_Zopp]; lia.
Qed.

Lemma rounds_opp W r : rounds W r -> rounds (- W) (SFopp r).
Proof.
  intros [V H]. split; [apply valid_opp, V|]. intros y Vy Fy.
  destruct (H (SFopp y) (valid_opp Vy)) as [H1 H2].
  { rewrite isfinite_opp; exact Fy. }
  rewrite scaled_opp in H1, H2.
  rewrite <- (opp_involutive y) at 2 4. rewrite !le_opp.
  split; intros K; [apply H2|apply H1]; lia.
Qed.

Lemma rounds_ext W W' r : W = W' -> rounds W r -> rounds W' r.
Proof. intros ->; auto. Qed.

(** Rounding an integer multiple of [2^(e - emin)]. *)
Lemma binary_normalize_rounds z e sz :
  emin <= e <= 971 ->
  rounds (z * 2 ^ (e - emin)) (binary_normalize F64.prec F64.emax z e sz).
Proof.
  intros He. destruct z as [|m|m]; cbn [binary_normalize].
  - apply rounds_exact; reflexivity.
  - apply binary_round_rounds, He.
  - rewrite binary_round_opp.
    apply rounds_ext with (- (Zpos m * 2 ^ (e - emin))); [lia|].
    apply rounds_opp, binary_round_rounds, He.
Qed.

Lemma digits2_pos_le m k : Zpos m < 2 ^ k -> Zpos (digits2_pos m) <= k.
Proof.
  intros H. pose proof (digits2_pos_lower m) as L.
  assert (K : 0 <= k).
  { destruct (Z_lt_le_dec k 0) as [C|C]; auto.
    rewrite Z.pow_neg_r in H by lia. lia. }
  destruct (Z_le_gt_dec (Zpos (digits2_pos m)) k) as [C|C]; auto.
  assert (2 ^ k <= 2 ^ (Zpos (digits2_pos m) - 1)) by (apply pow2_le; lia).
  lia.
Qed.

(** An integer below [2^53] is rounded to itself. *)
Lemma binary_normalize_small z e sz :
  emin <= e <= 971 -> Z.abs z < 2 ^ 53 ->
  let r := binary_normalize F64.prec F64.emax z e sz in
  Spec.valid r /\ F64.isfinite r = true /\ scaled r = z * 2 ^ (e - emin).
Proof.
  intros He Hz. destruct z as [|m|m]; cbn [binary_normalize].
  - repeat split.
  - destruct (binary_round_small false m He) as (mz & F & -> & V & E).
    { apply digits2_pos_le. exact Hz. }
    repeat split; auto.
  - destruct (binary_round_small true m He) as (mz & F & -> & V & E).
    { apply digits2_pos_le. exact Hz. }
    repeat split; auto. cbn [scaled cond_Zopp]. rewrite E. lia.
Qed.

Lemma aligned_scaled s m e ez :
  emin <= ez <= e ->
  cond_Zopp s (Zpos (fst (shl_align m e ez))) * 2 ^ (ez - emin)
  = scaled (S754_finite s m e).
Proof.
  intros H. destruct (shl_align_spec m e ez) as (A1 & A2 & _).
  rewrite A2, A1. replace (Z.min e ez) with ez by lia.
  cbn [scaled].
  assert (E : Zpos m * 2 ^ (e - ez) * 2 ^ (ez - emin)
              = Zpos m * 2 ^ (e - emin)).
  { rewrite <- Z.mul_assoc, <- pow2_split by lia. do 2 f_equal. lia. }
  destruct s; cbn [cond_Zopp]; lia.
Qed.

Lemma add_rounds x y :
  Spec.valid x -> Spec.valid y ->
  F64.isfinite x = true -> F64.isfinite y = true ->
  rounds (scaled x + scaled y) (F64.add x y).
Proof.
  intros Vx Vy Fx Fy.
  destruct x as [sx|sx| |sx mx ex]; try discriminate Fx;
    destruct y as [sy|sy| |sy my ey]; try discriminate Fy.
  - destruct sx, sy; apply rounds_exact; reflexivity.
  - apply rounds_exact; auto.
  - apply rounds_exact; auto. unfold F64.add, SFadd. cbn [scaled]. lia.
  - unfold F64.add, SFadd.
    destruct (valid_bounds Vx) as (Bx & _).
    destruct (valid_bounds Vy) as (By & _).
    eapply rounds_ext; [|apply binary_normalize_rounds; lia].
    rewrite Z.mul_add_distr_r, !aligned_scaled by lia. reflexivity.
Qed.

Lemma sub_rounds x y :
  Spec.valid x -> Spec.valid y ->
  F64.isfinite x = true -> F64.isfinite y = true ->
  rounds (scaled x - scaled y) (F64.sub x y).
Proof.
  intros Vx Vy Fx Fy.
  destruct x as [sx|sx| |sx mx ex]; try discriminate Fx;
    destruct y as [sy|sy| |sy my ey]; try discriminate Fy.
  - destruct sx, sy; apply rounds_exact; reflexivity.
  - apply rounds_exact; auto.
    unfold F64.sub, SFsub. cbn [scaled].
    destruct sy; cbn [negb cond_Zopp]; lia.
  - apply rounds_exact; auto. unfold F64.sub, SFsub. cbn [scaled]. lia.
  - unfold F64.sub, SFsub.
    destruct (valid_bounds Vx) as (Bx & _).
    destruct (valid_bounds Vy) as (By & _).
    eapply rounds_ext; [|apply binary_normalize_rounds; lia].
    rewrite Z.mul_sub_distr_r, !aligned_scaled by lia. reflexivity.
Qed.

(** A rounded value between two finite floats is finite, and compares as its
    value does. *)
Lemma le_le_finite lo r hi :
  F64.isfinite lo = true -> F64.isfinite hi = true ->
  Spec.le lo r -> Spec.le r hi -> F64.isfinite r = true.
Proof.
  intros Fl Fh L H.
  destruct r as [s|[|]| |s m e]; try reflexivity; exfalso.
  - destruct lo as [sl|sl| |[|] ml el]; try discriminate Fl;
      destruct L as [L|L]; discriminate L.
  - destruct hi as [sh|sh| |[|] mh eh]; try discriminate Fh;
      destruct H as [H|H]; discriminate H.
  - destruct L as [L|L]; destruct lo; discriminate L.
Qed.

Lemma rounds_between W r lo hi :
  rounds W r ->
  Spec.valid lo -> F64.isfinite lo = true ->
  Spec.valid hi -> F64.isfinite hi = true ->
  scaled lo <= W <= scaled hi ->
  Spec.valid r /\ F64.isfinite r = true
  /\ scaled lo <= scaled r <= scaled hi.
Proof.
  intros [V H] Vl Fl Vh Fh [Bl Bh].
  destruct (H lo Vl Fl) as [_ L]. destruct (H hi Vh Fh) as [U _].
  specialize (L Bl). specialize (U Bh).
  pose proof (le_le_finite Fl Fh L U) as F.
  split; [exact V|]. split; [exact F|].
  apply le_scaled in L; auto. apply le_scaled in U; auto.
Qed.

(** *** The remainder and the division by two *)

Lemma scaled_pos m e :
  emin <= e -> 0 < scaled (S754_finite false m e).
Proof.
  intros H. cbn [scaled cond_Zopp].
  pose proof (pow2_pos (e - emin) ltac:(lia)). nia.
Qed.

(** [fmod] is exact: the remainder is a float, smaller than the divisor. *)
Lemma fmod_spec s mp ep :
  Spec.valid s -> F64.isfinite s = true ->
  Spec.valid (S754_finite false mp ep) ->
  let p := S754_finite false mp ep in
  Spec.valid (F64.fmod s p) /\ F64.isfinite (F64.fmod s p) = true
  /\ - scaled p < scaled (F64.fmod s p) < scaled p.
Proof.
  intros Vs Fs Vp p.
  destruct (valid_bounds Vp) as (Bp & _).
  destruct (valid_mantissa Vp) as (Up & _).
  pose proof (scaled_pos mp (proj1 Bp)) as Pp. subst p.
  destruct s as [ss|ss| |ss ms es]; try discriminate Fs.
  - change (F64.fmod (S754_zero ss) (S754_finite false mp ep))
      with (S754_zero ss).
    repeat split; auto; change (scaled (S754_zero ss)) with 0; lia.
  - destruct (valid_bounds Vs) as (Bs & _).
    destruct (valid_mantissa Vs) as (Us & _).
    unfold F64.fmod.
    set (ez := Z.min es ep).
    destruct (shl_align_spec ms es ez) as (A1 & A2 & _).
    destruct (shl_align_spec mp ep ez) as (B1 & B2 & _).
    replace (Z.min es ez) with ez in A1 by (unfold ez; lia).
    replace (Z.min ep ez) with ez in B1 by (unfold ez; lia).
    rewrite A1 in A2. rewrite B1 in B2.
    pose proof (@aligned_scaled false mp ep ez ltac:(unfold ez; lia))
      as SP.
    cbn [cond_Zopp] in SP.
    set (X := Zpos (fst (shl_align ms es ez))) in *.
    set (Y := Zpos (fst (shl_align mp ep ez))) in *.
    assert (PX : 0 < X) by (unfold X; lia).
    assert (PY : 0 < Y) by (unfold Y; lia).
    pose proof (Z.rem_bound_pos X Y ltac:(lia) PY) as RB.
    pose proof (Z.rem_le X Y ltac:(lia) PY) as RL.
    set (R := Z.rem X Y) in *.
    assert (R53 : R < 2 ^ 53).
    { destruct (Z_le_gt_dec es ep) as [C|C].
      - replace (es - ez) with 0 in A2 by (unfold ez; lia).
        change (2 ^ 0) with 1 in A2. lia.
      - replace (ep - ez) with 0 in B2 by (unfold ez; lia).
        change (2 ^ 0) with 1 in B2. lia. }
    destruct (@binary_normalize_small (cond_Zopp ss R) ez ss)
      as (V & F & S); [unfold ez; lia|destruct ss; cbn [cond_Zopp]; lia|].
    split; [exact V|]. split; [exact F|]. rewrite S.
    pose proof (pow2_pos (ez - emin) ltac:(unfold ez; lia)) as PE.
    rewrite <- SP.
    destruct ss; cbn [cond_Zopp]; nia.
Qed.

Lemma div_eucl_eq a b : Z.div_eucl a b = (a / b, a mod b).
Proof. unfold Z.div, Z.modulo. destruct (Z.div_eucl a b); reflexivity. Qed.

Lemma div_core_normal mp ep :
  Zpos (digits2_pos mp) = 53 -> emin + 2 <= ep ->
  SFdiv_core_binary F64.prec F64.emax (Zpos mp) ep 4503599627370496 (-51)
  = (Zpos mp~0, ep - 2, loc_Exact).
Proof.
  intros D E. unfold SFdiv_core_binary. cbn [Zdigits2 digits2_pos Pos.succ].
  rewrite D, fexp_eq.
  replace (Z.min (Z.max (53 + ep - (53 + -51) - 53) emin) (ep - -51))
    with (ep - 2) by (unfold emin in *; lia).
  replace (ep - -51 - (ep - 2)) with 53 by lia.
  lazy iota beta.
  rewrite Z.shiftl_mul_pow2, div_eucl_eq by lia.
  replace (Zpos mp * 2 ^ 53) with (Zpos mp~0 * 4503599627370496)
    by (change (2 ^ 53) with (2 * 4503599627370496); lia).
  rewrite Z.div_mul, Z.mod_mul by discriminate. reflexivity.
Qed.

Lemma div_core_low mp :
  Zpos (digits2_pos mp) = 53 ->
  SFdiv_core_binary F64.prec F64.emax (Zpos mp) (emin + 1)
    4503599627370496 (-51)
  = (Zpos mp, emin, loc_Exact).
Proof.
  intros D. unfold SFdiv_core_binary. cbn [Zdigits2 digits2_pos Pos.succ].
  rewrite D, fexp_eq.
  replace (Z.min (Z.max (53 + (emin + 1) - (53 + -51) - 53) emin)
             (emin + 1 - -51))
    with emin by (unfold emin in *; lia).
  replace (emin + 1 - -51 - emin) with 52 by lia.
  lazy iota beta.
  rewrite Z.shiftl_mul_pow2, div_eucl_eq by lia.
  change (2 ^ 52) with 4503599627370496.
  rewrite Z.div_mul, Z.mod_mul by discriminate. reflexivity.
Qed.

Lemma div_core_subnormal mp :
  Zpos (digits2_pos mp) <= 53 ->
  SFdiv_core_binary F64.prec F64.emax (Zpos mp) emin 4503599627370496 (-51)
  = (Zpos mp / 2, emin,
     new_location 4503599627370496 (Zpos mp mod 2 * 2251799813685248)).
Proof.
  intros D. unfold SFdiv_core_binary. cbn [Zdigits2 digits2_pos Pos.succ].
  rewrite fexp_eq.
  replace (Z.min (Z.max (Zpos (digits2_pos mp) + emin - (53 + -51) - 53) emin)
             (emin - -51))
    with emin by (unfold emin in *; lia).
  replace (emin - -51 - emin) with 51 by lia.
  lazy iota beta.
  rewrite Z.shiftl_mul_pow2, div_eucl_eq by lia.
  change (2 ^ 51) with 2251799813685248.
  pose proof (Z.div_mod (Zpos mp) 2 ltac:(lia)) as DM.
  pose proof (Z.mod_pos_bound (Zpos mp) 2 ltac:(lia)) as MB.
  assert (E : Zpos mp * 2251799813685248
              = 4503599627370496 * (Zpos mp / 2)
                + Zpos mp mod 2 * 2251799813685248) by lia.
  f_equal; [f_equal|f_equal].
  - symmetry. eapply Z.div_unique_pos; [|exact E]. lia.
  - symmetry. eapply Z.mod_unique_pos; [|exact E]. lia.
Qed.

Lemma div_two_unfold mp ep :
  F64.div (S754_finite false mp ep) F64.two
  = let '(mz, ez, lz) :=
      SFdiv_core_binary F64.prec F64.emax (Zpos mp) ep 4503599627370496 (-51)
    in binary_round_aux F64.prec F64.emax false mz ez lz.
Proof. reflexivity. Qed.

(** Half of a positive float: exact, except for an odd multiple of the least
    positive float, which is rounded to an even one. *)
Lemma div_two_spec mp ep :
  Spec.valid (S754_finite false mp ep) ->
  let p := S754_finite false mp ep in
  let h := F64.div p F64.two in
  Spec.valid h /\ F64.isfinite h = true /\ 0 <= scaled h
  /\ (scaled p <= 2 * scaled h
      \/ (ep = emin /\ scaled p = 2 * scaled h + 1)).
Proof.
  intros V p h. unfold h, p. clear h p.
  destruct (valid_bounds V) as (B & D & D').
  destruct (valid_mantissa V) as (U & L).
  rewrite div_two_unfold.
  destruct (Z_lt_le_dec (emin + 1) ep) as [C1|C1].
  - (* a normal number, halved by its exponent *)
    rewrite div_core_normal by (try apply D'; lia).
    destruct (@round_aux_inexact false mp~0 (ep - 2)) as
      (m3 & E3 & -> & HE & C3 & Hv); [lia|cbn [digits2_pos]; lia|].
    cbn [digits2_pos] in HE, Hv.
    rewrite Pos2Z.inj_succ, (D' ltac:(lia)) in HE, Hv.
    replace (Z.succ 53 - 53) with 1 in HE, Hv by lia.
    change (2 ^ 1) with 2 in Hv.
    replace (Zpos mp~0 / 2) with (Zpos mp) in Hv
      by (rewrite Pos2Z.inj_xO, Z.mul_comm, Z.div_mul; lia).
    replace (Zpos mp~0 mod 2) with 0 in Hv
      by (rewrite Pos2Z.inj_xO, Z.mul_comm, Z.mod_mul; lia).
    destruct Hv as [Hv|[_ Hv]]; [|lia].
    assert (D3 : Zpos (digits2_pos m3) = 53)
      by (rewrite fexp_eq in C3; unfold emin in *; lia).
    pose proof (digits2_pos_lower m3) as L3. rewrite D3 in L3.
    change (53 - 1) with 52 in L3.
    assert (E3 = ep - 1).
    { destruct (Z.eq_dec E3 (ep - 1)) as [K|K]; auto. exfalso.
      assert (2 ^ 1 <= 2 ^ (E3 - (ep - 2 + 1))) by (apply pow2_le; lia).
      change (2 ^ 1) with 2 in *. change (2 ^ 53) with (2 * 2 ^ 52) in U.
      nia. }
    subst E3. replace (ep - 1 - (ep - 2 + 1)) with 0 in Hv by lia.
    change (2 ^ 0) with 1 in Hv.
    assert (m3 = mp) by lia. subst m3.
    assert (Le : (ep - 1 <=? 971) = true) by (apply Z.leb_le; lia).
    rewrite Le.
    assert (Vh : Spec.valid (S754_finite false mp (ep - 1)))
      by (apply valid_intro; [lia|exact C3]).
    pose proof (pow2_pos (ep - 1 - emin) ltac:(lia)) as P.
    assert (E2 : 2 ^ (ep - emin) = 2 * 2 ^ (ep - 1 - emin)).
    { replace (ep - emin) with (1 + (ep - 1 - emin)) by lia.
      rewrite pow2_split by lia. reflexivity. }
    split; [exact Vh|]. split; [reflexivity|].
    cbn [scaled cond_Zopp]. rewrite E2. split; [nia|left; nia].
  - destruct (Z.eq_dec ep emin) as [C2|C2].
    + (* a multiple of the least positive float *)
      subst ep. rewrite div_core_subnormal by exact D.
      replace (emin - emin) with 0 by lia. change (2 ^ 0) with 1.
      destruct mp as [q|q|].
      * (* odd: a tie *)
        replace (Zpos q~1 / 2) with (Zpos q)
          by (apply Z.div_unique_pos with 1; lia).
        replace (Zpos q~1 mod 2) with 1
          by (apply Z.mod_unique_pos with (Zpos q); lia).
        change (new_location 4503599627370496 (1 * 2251799813685248))
          with (loc_Inexact Eq).
        assert (Dq : Zpos (digits2_pos q) <= 52).
        { cbn [digits2_pos] in D. rewrite Pos2Z.inj_succ in D. lia. }
        assert (Fq : fexp F64.prec F64.emax (Zpos (digits2_pos q) + emin)
                     - emin = 0)
          by (rewrite fexp_eq; unfold emin in *; lia).
        unfold binary_round_aux, shr_fexp.
        cbn [Zdigits2 shr_record_of_loc]. rewrite Fq.
        cbn [shr shr_m loc_of_shr_record round_nearest_even].
        assert (Q53 : Zpos q < 2 ^ 52).
        { rewrite Pos2Z.inj_xI in U. change (2 ^ 53) with (2 * 2 ^ 52) in U.
          lia. }
        destruct (Z.even (Zpos q)).
        -- cbn [Zdigits2 shr_record_of_loc]. rewrite Fq. cbn [shr shr_m].
           change (emin <=? F64.emax - F64.prec) with true. cbv iota.
           assert (Vh : Spec.valid (S754_finite false q emin)).
           { apply valid_intro; [unfold emin; lia|]. lia. }
           split; [exact Vh|]. split; [reflexivity|].
           cbn [scaled cond_Zopp]. replace (emin - emin) with 0 by lia.
           change (2 ^ 0) with 1. split; [lia|right; split; lia].
        -- change (Zpos q + 1) with (Zpos (q + 1)).
           assert (Dq1 : Zpos (digits2_pos (q + 1)) <= 53).
           { apply digits2_pos_le. change (2 ^ 53) with (2 * 2 ^ 52). lia. }
           assert (Fq1 : fexp F64.prec F64.emax
                           (Zpos (digits2_pos (q + 1)) + emin) - emin = 0)
             by (rewrite fexp_eq; unfold emin in *; lia).
           cbn [Zdigits2 shr_record_of_loc]. rewrite Fq1. cbn [shr shr_m].
           change (emin <=? F64.emax - F64.prec) with true. cbv iota.
           assert (Vh : Spec.valid (S754_finite false (q + 1) emin)).
           { apply valid_intro; [unfold emin; lia|]. lia. }
           split; [exact Vh|]. split; [reflexivity|].
           cbn [scaled cond_Zopp]. replace (emin - emin) with 0 by lia.
           change (2 ^ 0) with 1. split; [lia|left; lia].
      * (* even: exact *)
        replace (Zpos q~0 / 2) with (Zpos q)
          by (apply Z.div_unique_pos with 0; lia).
        replace (Zpos q~0 mod 2) with 0
          by (apply Z.mod_unique_pos with (Zpos q); lia).
        change (new_location 4503599627370496 (0 * 2251799813685248))
          with loc_Exact.
        assert (Dq : Zpos (digits2_pos q) <= 52).
        { cbn [digits2_pos] in D. rewrite Pos2Z.inj_succ in D. lia. }
        assert (Fq : fexp F64.prec F64.emax (Zpos (digits2_pos q) + emin)
                     = emin)
          by (rewrite fexp_eq; unfold emin in *; lia).
        rewrite (round_aux_exact false q Fq).
        change (emin <=? 971) with true. cbv iota.
        assert (Vh : Spec.valid (S754_finite false q emin))
          by (apply valid_intro; [unfold emin; lia|exact Fq]).
        split; [exact Vh|]. split; [reflexivity|].
        cbn [scaled cond_Zopp]. replace (emin - emin) with 0 by lia.
        change (2 ^ 0) with 1. split; [lia|left; lia].
      * (* the least positive float: half of it is rounded to zero *)
        repeat split; try reflexivity; try discriminate.
        right. split; reflexivity.
    + (* the lowest normal binade *)
      assert (ep = emin + 1) by lia. subst ep.
      rewrite div_core_low by (apply D'; lia).
      assert (Fq : fexp F64.prec F64.emax (Zpos (digits2_pos mp) + emin)
                   = emin)
        by (rewrite fexp_eq, (D' ltac:(lia)); unfold emin; lia).
      rewrite (round_aux_exact false mp Fq).
      change (emin <=? 971) with true. cbv iota.
      assert (Vh : Spec.valid (S754_finite false mp emin))
        by (apply valid_intro; [unfold emin; lia|exact Fq]).
      split; [exact Vh|]. split; [reflexivity|].
      cbn [scaled cond_Zopp].
      replace (emin - emin) with 0 by lia.
      replace (emin + 1 - emin) with 1 by lia.
      change (2 ^ 0) with 1. change (2 ^ 1) with 2. split; [lia|left; lia].
Qed.

(** *** The sign adjustment and the folded value *)

Lemma eqb_zero_scaled x :
  Spec.valid x -> F64.isfinite x = true ->
  F64.eqb x F64.zero = (scaled x =? 0).
Proof.
  intros V F. unfold F64.eqb, SFeqb.
  rewrite (@compare_scaled x F64.zero V eq_refl F eq_refl).
  change (scaled F64.zero) with 0. unfold Z.eqb.
  destruct (scaled x ?= 0) eqn:E.
  - apply Z.compare_eq in E. rewrite E. reflexivity.
  - destruct (scaled x); try reflexivity; discriminate E.
  - destruct (scaled x); try reflexivity; discriminate E.
Qed.

Lemma ltb_zero_scaled x :
  Spec.valid x -> F64.isfinite x = true ->
  F64.ltb x F64.zero = (scaled x <? 0).
Proof.
  intros V F. unfold F64.ltb, SFltb.
  rewrite (@compare_scaled x F64.zero V eq_refl F eq_refl).
  change (scaled F64.zero) with 0. unfold Z.ltb.
  destruct (scaled x ?= 0); reflexivity.
Qed.

(** Every natural number below [2^53] is the scaled value of a float. *)
Lemma small_float k :
  0 <= k < 2 ^ 53 ->
  exists y, Spec.valid y /\ F64.isfinite y = true /\ scaled y = k.
Proof.
  intros H.
  destruct (@binary_normalize_small k emin false) as (V & F & E).
  - unfold emin. lia.
  - rewrite Z.abs_eq; lia.
  - eexists. split; [exact V|]. split; [exact F|].
    rewrite E. replace (emin - emin) with 0 by lia.
    change (2 ^ 0) with 1. lia.
Qed.

(** The sign adjustment brings the remainder into [0, p]; the right end is
    reached when [f + p] rounds up to [p]. *)
Lemma adjust_spec f mp ep :
  Spec.valid f -> F64.isfinite f = true ->
  Spec.valid (S754_finite false mp ep) ->
  let p := S754_finite false mp ep in
  - scaled p < scaled f < scaled p ->
  let m := F64.adjust_rem f p in
  Spec.valid m /\ F64.isfinite m = true
  /\ 0 <= scaled m <= scaled p
  /\ (ep = emin -> scaled m < scaled p).
Proof.
  intros Vf Ff Vp p B m. unfold m, F64.adjust_rem, F64.truthy.
  destruct (valid_bounds Vp) as (Bp & _).
  pose proof (scaled_pos mp (proj1 Bp)) as Pp. fold p in Pp.
  rewrite (eqb_zero_scaled Vf Ff), (ltb_zero_scaled Vf Ff).
  rewrite (@ltb_zero_scaled p Vp eq_refl).
  destruct (Z.ltb_spec (scaled p) 0) as [C|_]; [lia|].
  destruct (Z.eqb_spec (scaled f) 0) as [Z0|Z0]; cbn [negb xorb].
  - change (F64.copysign F64.zero p) with F64.zero.
    change (scaled F64.zero) with 0.
    repeat split; try reflexivity; lia.
  - destruct (Z.ltb_spec (scaled f) 0) as [N|N].
    + pose proof (@add_rounds f p Vf Vp Ff eq_refl) as R.
      destruct (@rounds_between _ _ F64.zero p R) as (V & F & L & U);
        try reflexivity; try exact Vp.
      { change (scaled F64.zero) with 0. lia. }
      change (scaled F64.zero) with 0 in L.
      split; [exact V|]. split; [exact F|]. split; [lia|].
      intros He.
      destruct (valid_mantissa Vp) as (Up & _).
      assert (Sp : scaled p = Zpos mp).
      { unfold p. cbn [scaled cond_Zopp]. rewrite He.
        replace (emin - emin) with 0 by lia. change (2 ^ 0) with 1. lia. }
      destruct (@small_float (scaled p - 1)) as (y & Vy & Fy & Ey); [lia|].
      destruct (@rounds_between _ _ F64.zero y R) as (_ & _ & _ & U');
        try reflexivity; try assumption.
      { change (scaled F64.zero) with 0. lia. }
      lia.
    + repeat split; try assumption; lia.
Qed.

(** The folded value of a finite number lies in the closed interval
    [[-p/2, p/2]], for every positive finite period, whenever [a + p/2] does
    not overflow. *)
Lemma fold_interval a mp ep :
  Spec.valid a -> Spec.valid (S754_finite false mp ep) ->
  let p := S754_finite false mp ep in
  let h := F64.div p F64.two in
  F64.isfinite (F64.add a h) = true ->
  Spec.le (SFopp h) (Spec.fold_py a p) /\ Spec.le (Spec.fold_py a p) h.
Proof.
  intros Va Vp p h Fs.
  destruct (div_two_spec Vp) as (Vh & Fh & Ph & Hh). fold p h in Vh, Fh, Ph, Hh.
  assert (Fa : F64.isfinite a = true).
  { destruct (F64.isfinite a) eqn:E; auto.
    rewrite (add_nonfinite_l a h E) in Fs. discriminate Fs. }
  pose proof (@add_rounds a h Va Vh Fa Fh) as [Vs _].
  destruct (@fmod_spec (F64.add a h) mp ep Vs Fs Vp) as (Vf & Ff & Bf).
  fold p in Vf, Ff, Bf.
  destruct (@adjust_spec _ mp ep Vf Ff Vp Bf) as (Vm & Fm & Bm & Sm).
  fold p in Vm, Fm, Bm, Sm.
  pose proof (@sub_rounds _ h Vm Vh Fm Fh) as [_ R].
  assert (W : - scaled h <= scaled (F64.adjust_rem (F64.fmod (F64.add a h) p) p)
                           - scaled h <= scaled h).
  { destruct Hh as [Hh|[He Hh]]; [lia|]. specialize (Sm He). lia. }
  unfold Spec.fold_py. fold h. split.
  - apply (R (SFopp h)).
    + apply valid_opp, Vh.
    + rewrite isfinite_opp. exact Fh.
    + rewrite scaled_opp. lia.
  - apply (R h Vh Fh). lia.
Qed.

(** When [a + p/2] is infinite or NaN, so is the folded value: a NaN. *)
Lemma fold_py_nan a p :
  F64.isfinite (F64.add a (F64.div p F64.two)) = false ->
  Spec.fold_py a p = F64.nan.
Proof.
  intros H. unfold Spec.fold_py.
  rewrite (fmod_nonfinite _ p H), adjust_rem_nan. reflexivity.
Qed.

(** The folding of the scalars, for every positive period: the closed
    interval, or a NaN when [a + p/2] is not finite. *)
Lemma fold_py_closed a p :
  Spec.valid a -> Spec.valid p -> Spec.lt F64.zero p ->
  (F64.isfinite (F64.add a (F64.div p F64.two)) = true ->
   Spec.in_closed (Spec.fold_py a p) p)
  /\ (F64.isfinite (F64.add a (F64.div p F64.two)) = false ->
      Spec.fold_py a p = F64.nan).
Proof.
  intros Va Vp Hp. split; [|apply fold_py_nan].
  destruct p as [s|[|]| |[|] mp ep]; try discriminate Hp; intros F.
  - rewrite add_nonfinite_r in F by reflexivity. discriminate F.
  - apply (fold_interval Va Vp F).
Qed.

(** The same for the folding of the arrays. *)
Lemma fold_np_closed v p :
  Spec.valid v -> Spec.valid p -> Spec.lt F64.zero p ->
  (F64.isfinite (F64.add v (F64.div p F64.two)) = true ->
   Spec.in_closed (Spec.fold_np v p) p)
  /\ (F64.isfinite (F64.add v (F64.div p F64.two)) = false ->
      Spec.fold_np v p = F64.nan).
Proof.
  intros Vv Vp Hp. rewrite fold_np_py by exact (lt_zero_not_zero Hp).
  apply fold_py_closed; assumption.
Qed.

(** ** The modular tests *)

(** C5, as stated, fails on the interval: for [v = -1.5000000000000002] and
    the period [3.0], [v + 1.5] is [-2^-52], the remainder [-2^-52 + 3.0]
    rounds to [3.0], and the folded value is [1.5], the excluded end of
    [[-p/2, p/2)]. *)
Lemma C5_counterexample :
  let v := S754_finite true 6755399441055745 (-52) in
  let p := F64.of_Z 3 in
  Spec.lt F64.zero p
  /\ Spec.fold_np v p = F64.div p F64.two
  /\ ~ Spec.in_half_open (Spec.fold_np v p) p.
Proof.
  repeat split. intros [_ H]. discriminate H.
Qed.

(** C5 (amended): [all_near_zero_mod(a, p, rtol, atol, equal_nan)] is
    [all_near_zero] of the array obtained by mapping each element [v] of [a]
    to [((v + p/2) % p) - p/2] in float arithmetic, for every period.  For
    every period [p > 0] and every element [v], the folded value lies in the
    closed interval [[-p/2, p/2]] when [v + p/2] is finite, and is a NaN when
    [v + p/2] is infinite or a NaN; so every element of the folded array is
    in [[-p/2, p/2]] or a NaN.  With the default tolerances
    [all_near_zero_mod([3.0], 4.0)] is false (the element folds to [-1]) and
    [all_near_zero_mod([4.0], 4.0)] is true (it folds to [0]), both folded
    values being in [[-2, 2)]. *)
Theorem C5_all_near_zero_mod_folds :
  (forall a p rtol atol en,
      all_near_zero_mod a p rtol atol en
      = all_near_zero (Np.map_array (fun v => Spec.fold_np v p) a)
          rtol atol en)
  /\ (forall v p,
      Spec.valid v -> Spec.valid p -> Spec.lt F64.zero p ->
      (F64.isfinite (F64.add v (F64.div p F64.two)) = true ->
       Spec.in_closed (Spec.fold_np v p) p)
      /\ (F64.isfinite (F64.add v (F64.div p F64.two)) = false ->
          Spec.fold_np v p = F64.nan))
  /\ (forall (a : ndarray) p,
      (forall v, In v (Np.data a) -> Spec.valid v) ->
      Spec.valid p -> Spec.lt F64.zero p ->
      forall x,
        In x (Np.data (Np.map_array (fun v => Spec.fold_np v p) a)) ->
        Spec.in_closed x p \/ x = F64.nan)
  /\ all_near_zero_mod (vec [F64.of_Z 3]) (F64.of_Z 4)
       DEFAULT_RTOL DEFAULT_ATOL DEFAULT_EQUAL_NAN = Ok false
  /\ Spec.fold_np (F64.of_Z 3) (F64.of_Z 4) = F64.of_Z (-1)
  /\ all_near_zero_mod (vec [F64.of_Z 4]) (F64.of_Z 4)
       DEFAULT_RTOL DEFAULT_ATOL DEFAULT_EQUAL_NAN = Ok true
  /\ Spec.fold_np (F64.of_Z 4) (F64.of_Z 4) = F64.zero
  /\ Spec.in_half_open (Spec.fold_np (F64.of_Z 3) (F64.of_Z 4)) (F64.of_Z 4)
  /\ Spec.in_half_open (Spec.fold_np (F64.of_Z 4) (F64.of_Z 4)) (F64.of_Z 4).
Proof.
  split; [|split; [|split; [|repeat split; vm_compute; auto]]].
  - intros a p rtol atol en.
    unfold all_near_zero_mod. rewrite float_div_two. simpl.
    rewrite fold_np_array. reflexivity.
  - intros v p Vv Vp Hp. apply fold_np_closed; assumption.
  - intros a p Va Vp Hp x Hx. cbn [Np.map_array Np.data] in Hx.
    apply in_map_iff in Hx. destruct Hx as (v & <- & Hv).
    destruct (fold_np_closed (Va v Hv) Vp Hp) as [I N].
    destruct (F64.isfinite (F64.add v (F64.div p F64.two))).
    + left. apply I. reflexivity.
    + right. apply N. reflexivity.
Qed.

Lemma C5_witness :
  Spec.valid (F64.of_Z 3) /\ Spec.valid (F64.of_Z 4)
  /\ Spec.lt F64.zero (F64.of_Z 4)
  /\ F64.isfinite (F64.add (F64.of_Z 3) (F64.div (F64.of_Z 4) F64.two)) = true
  /\ Spec.in_closed (Spec.fold_np (F64.of_Z 3) (F64.of_Z 4)) (F64.of_Z 4)
  /\ Spec.valid F64.inf
  /\ F64.isfinite (F64.add F64.inf (F64.div (F64.of_Z 4) F64.two)) = false
  /\ Spec.fold_np F64.inf (F64.of_Z 4) = F64.nan.
Proof.
  split; [reflexivity|]. split; [reflexivity|]. split; [reflexivity|].
  split; [reflexivity|]. split.
  { apply (proj1 (proj1 (proj2 C5_all_near_zero_mod_folds)
                    (F64.of_Z 3) (F64.of_Z 4) eq_refl eq_refl eq_refl)).
    reflexivity. }
  split; [reflexivity|]. split; [reflexivity|].
  apply (proj2 (proj1 (proj2 C5_all_near_zero_mod_folds)
                  F64.inf (F64.of_Z 4) eq_refl eq_refl eq_refl)).
  reflexivity.
Defined.

(** C6, as stated, fails on the interval, at the same input as for the
    arrays: [near_zero_mod] folds [-1.5000000000000002] with period [3.0]
    to [1.5], which is not in [[-1.5, 1.5)]. *)
Lemma C6_counterexample :
  let a := S754_finite true 6755399441055745 (-52) in
  let p := F64.of_Z 3 in
  Spec.lt F64.zero p
  /\ Spec.fold_py a p = F64.div p F64.two
  /\ ~ Spec.in_half_open (Spec.fold_py a p) p.
Proof.
  repeat split. intros [_ H]. discriminate H.
Qed.

(** C6 (amended): for every period [p > 0], [near_zero_mod(a, p, atol)]
    returns [near_zero(((a + p/2) % p) - p/2, atol)] in float arithmetic;
    the folded value lies in the closed interval [[-p/2, p/2]] when
    [a + p/2] is finite, and is a NaN when [a + p/2] is infinite or a NaN;
    and [near_zero_mod(2*pi, 2*pi, 1e-9)] is true, [2*pi] being folded into
    [[-pi, pi)]. *)
Theorem C6_near_zero_mod_folds a p atol :
  Spec.lt F64.zero p ->
  near_zero_mod a p atol = Ok (near_zero (Spec.fold_py a p) atol)
  /\ (Spec.valid a -> Spec.valid p ->
      (F64.isfinite (F64.add a (F64.div p F64.two)) = true ->
       Spec.in_closed (Spec.fold_py a p) p)
      /\ (F64.isfinite (F64.add a (F64.div p F64.two)) = false ->
          Spec.fold_py a p = F64.nan))
  /\ near_zero_mod (F64.mul F64.two F64.pi) (F64.mul F64.two F64.pi)
       F64.lit_1e_9 = Ok true
  /\ Spec.in_half_open
       (Spec.fold_py (F64.mul F64.two F64.pi) (F64.mul F64.two F64.pi))
       (F64.mul F64.two F64.pi).
Proof.
  intros Hp. split; [|split; [|repeat split; vm_compute; auto]].
  - unfold near_zero_mod. rewrite float_div_two. simpl.
    unfold Py.float_rem. rewrite (lt_zero_not_zero Hp). reflexivity.
  - intros Va Vp. apply fold_py_closed; assumption.
Qed.

Lemma C6_witness :
  Spec.lt F64.zero (F64.of_Z 4)
  /\ near_zero_mod (F64.of_Z 3) (F64.of_Z 4) F64.lit_1e_9
     = Ok (near_zero (Spec.fold_py (F64.of_Z 3) (F64.of_Z 4)) F64.lit_1e_9)
  /\ Spec.valid (F64.of_Z 3) /\ Spec.valid (F64.of_Z 4)
  /\ F64.isfinite (F64.add (F64.of_Z 3) (F64.div (F64.of_Z 4) F64.two)) = true
  /\ Spec.in_closed (Spec.fold_py (F64.of_Z 3) (F64.of_Z 4)) (F64.of_Z 4)
  /\ Spec.valid F64.inf
  /\ F64.isfinite (F64.add F64.inf (F64.div (F64.of_Z 4) F64.two)) = false
  /\ Spec.fold_py F64.inf (F64.of_Z 4) = F64.nan.
Proof.
  split; [reflexivity|]. split.
  { apply (C6_near_zero_mod_folds (F64.of_Z 3) (p := F64.of_Z 4) F64.lit_1e_9).
    reflexivity. }
  split; [reflexivity|]. split; [reflexivity|]. split; [reflexivity|].
  split.
  { apply (proj1 (proj1 (proj2 (C6_near_zero_mod_folds (F64.of_Z 3)
                                  (p := F64.of_Z 4) F64.lit_1e_9 eq_refl))
                    eq_refl eq_refl)).
    reflexivity. }
  split; [reflexivity|]. split; [reflexivity|].
  apply (proj2 (proj1 (proj2 (C6_near_zero_mod_folds F64.inf
                                (p := F64.of_Z 4) F64.lit_1e_9 eq_refl))
                  eq_refl eq_refl)).
  reflexivity.
Defined.
